(** * Compound curation pipeline: name resolution and batch reconciliation

    A shallow embedding of the notebook [curated_compound_swiss_target.ipynb]:
    the resolver [get_cid_and_smiles] (Cell 3), the input validation (Cell 2),
    the processing loop (Cell 4) and the quality control (Cell 5).

    Python text is a sequence of Unicode code points, the external service is
    an oracle answering requests, and the notebook's effects (the run log, the
    requests issued, the files saved, exceptions) are threaded explicitly
    through a state-and-exception monad. *)

From Stdlib Require Import Ascii String DecimalString.
From Stdlib Require Import List ZArith NArith Bool Lia.
Import ListNotations.

Set Implicit Arguments.
Set Warnings "-register-all".

(* ===================================================================== *)
(** ** Python text *)
(* ===================================================================== *)

Module PyStr.

(** A Python [str] is a sequence of code points. *)
Definition char := N.
Definition str := list char.

(** An ASCII literal of the source, as code points. *)
Definition lit (s : string) : str :=
  map N_of_ascii (list_ascii_of_string s).

Fixpoint eqb (a b : str) : bool :=
  match a, b with
  | [], [] => true
  | x :: a', y :: b' => N.eqb x y && eqb a' b'
  | _, _ => false
  end.

(** [c.isspace()]: the code points CPython treats as whitespace. *)
Definition isspace (c : char) : bool :=
  ((9 <=? c) && (c <=? 13) || (28 <=? c) && (c <=? 32)
   || (c =? 133) || (c =? 160) || (c =? 5760)
   || (8192 <=? c) && (c <=? 8202)
   || (c =? 8232) || (c =? 8233) || (c =? 8239) || (c =? 8287)
   || (c =? 12288))%N.

Fixpoint lstrip (s : str) : str :=
  match s with
  | [] => []
  | c :: t => if isspace c then lstrip t else s
  end.

Definition rstrip (s : str) : str := rev (lstrip (rev s)).

(** [s.strip()] *)
Definition strip (s : str) : str := rstrip (lstrip s).

(** [s.replace(old, new)] for a one-character [old], as at every call site. *)
Definition replace (old : char) (new : str) (s : str) : str :=
  flat_map (fun c => if N.eqb c old then new else [c]) s.

Fixpoint startswith (s p : str) : bool :=
  match p, s with
  | [], _ => true
  | x :: p', y :: s' => N.eqb x y && startswith s' p'
  | _ :: _, [] => false
  end.

(** [p in s] *)
Fixpoint contains (p s : str) : bool :=
  startswith s p ||
  match s with
  | [] => false
  | _ :: t => contains p t
  end.

Fixpoint mem (x : str) (l : list str) : bool :=
  match l with
  | [] => false
  | y :: t => eqb x y || mem x t
  end.

Fixpoint fromkeys_from (seen l : list str) : list str :=
  match l with
  | [] => []
  | x :: t =>
      if mem x seen then fromkeys_from seen t
      else x :: fromkeys_from (x :: seen) t
  end.

(** [list(dict.fromkeys(l))]: the keys in first-insertion order. *)
Definition dict_fromkeys (l : list str) : list str := fromkeys_from [] l.

(** [str(z)] for an [int]. *)
Definition of_Z (z : Z) : str := lit (NilZero.string_of_int (Z.to_int z)).

End PyStr.

Import PyStr.

(* ===================================================================== *)
(** ** Python values *)
(* ===================================================================== *)

(** What [json.loads] can return, which is also what a cell of a result row
    can hold.  A float is identified by its [repr]; [nan] is apart because
    pandas reads it as a missing cell. *)
Inductive value : Type :=
| VNone
| VNaN
| VBool (b : bool)
| VInt (z : Z)
| VFloat (repr : str)
| VStr (s : str)
| VList (l : list value)
| VDict (d : list (str * value)).

(** Exceptions deriving from Python's [Exception]. *)
Inductive exn : Type :=
| URLError
| HTTPError (code : Z)
| TimeoutError
| OSError
| JSONDecodeError
| KeyError
| IndexError
| TypeError
| ValueError
| FileNotFoundError.

Inductive exc (A : Type) : Type :=
| Ok (a : A)
| Raise (e : exn).
Arguments Ok {A} a.
Arguments Raise {A} e.

Fixpoint assoc {A : Type} (k : str) (d : list (str * A)) : option A :=
  match d with
  | [] => None
  | (k', v) :: t => if PyStr.eqb k k' then Some v else assoc k t
  end.

(** [v[k]] with a text key. *)
Definition getitem (v : value) (k : str) : exc value :=
  match v with
  | VDict d =>
      match assoc k d with
      | Some x => Ok x
      | None => Raise KeyError
      end
  | _ => Raise TypeError
  end.

(** [v[i]] with an integer index [i >= 0].  A decoded JSON object has text
    keys only, so an integer key is never found. *)
Definition getindex (v : value) (i : nat) : exc value :=
  match v with
  | VList l =>
      match nth_error l i with
      | Some x => Ok x
      | None => Raise IndexError
      end
  | VStr s =>
      match nth_error s i with
      | Some c => Ok (VStr [c])
      | None => Raise IndexError
      end
  | VDict _ => Raise KeyError
  | _ => Raise TypeError
  end.

(* ===================================================================== *)
(** ** The external service and the world *)
(* ===================================================================== *)

(** The two lookups.  The second URL is built from the text of the
    identifier; indexing the oracle by the identifier itself only allows
    more services. *)
Inductive request : Type :=
| CidsByName (name : str)
| SmilesByCid (cid : value).

(** What [read()] returns: no bytes, bytes that [json.loads] rejects, or
    bytes that decode to a value. *)
Inductive body : Type :=
| Empty
| NotJson
| JsonText (v : value).

(** [urlopen(url, timeout=20)] followed by [read()]: either one raises
    (transport error, HTTP error status, timeout) or bytes come back. *)
Inductive reply : Type :=
| Raises (e : exn)
| Read (b : body).

(** A service answers a request knowing the requests issued before it. *)
Definition service := list request -> request -> reply.

(** A stable (mocked) service answers by the request alone. *)
Definition stable (f : request -> reply) : service := fun _ q => f q.

(** The statuses, as the text the source returns. *)
Definition status_original : str := lit "Success (Original Name)".
Definition status_variant : str := lit "Success (Name Variant)".
Definition status_failed : str := lit "Failed".

Inductive artifact : Type :=
| FullResults   (* compounds_with_cid_smiles.csv *)
| CleanResults. (* data_compounds_final_full.csv *)

(** A Python [dict] with text keys, in insertion order. *)
Definition dict := list (str * value).

(** The lines [write_log] appends, by format string. *)
Inductive event : Type :=
| LogStarted
| LogFolder
| LogReadOk
| LogTotalCompounds (n : nat)
| LogColumns (cols : list str)
| LogDuplicates (n : nat)
| LogCriticalNotFound
| LogCriticalReadFailed (e : exn)
| LogSearching (name : str)
| LogFoundCid (cid : value)
| LogSuccess (cid : value)
| LogFailedFor (name : str) (e : exn)
| LogAllFailed (name : str)
| LogNoInput
| LogRule
| LogStarting (n : nat)
| LogProcessing (i n : nat) (name : str)
| LogCompleted
| LogSummaryTotal (n : nat)
| LogSummarySuccess (n : nat)
| LogSummaryFailed (n : nat)
| LogSuccessRate (succeeded total : nat)
| LogFailedHeader
| LogFailedName (name : str)
| LogSaved (a : artifact)
| LogQCPhase
| LogQCResults
| LogQCInitial (n : nat)
| LogQCRemoved (n : nat)
| LogQCFinal (n : nat)
| LogReady
| LogFinalHeader
| LogFinalOriginal (n : nat)
| LogFinalProcessed (n : nat)
| LogFinalReady (n : nat)
| LogFinalRate (ready total : nat)
| LogNoResults.

Record world : Type := mkWorld {
  log : list event;                       (* curation_log.txt *)
  calls : list request;                   (* requests issued so far *)
  files : list (artifact * list dict)     (* tables saved by to_csv *)
}.

Definition world0 : world := mkWorld [] [] [].

(* ===================================================================== *)
(** ** The monad of notebook code *)
(* ===================================================================== *)

Definition M (A : Type) : Type := world -> exc A * world.

Definition ret {A} (a : A) : M A := fun w => (Ok a, w).

Definition bind {A B} (m : M A) (k : A -> M B) : M B :=
  fun w =>
    match m w with
    | (Ok a, w') => k a w'
    | (Raise e, w') => (Raise e, w')
    end.

Declare Scope py_scope.
Delimit Scope py_scope with py.
Notation "x <- m ;; k" := (bind m (fun x => k))
  (at level 61, m at next level, right associativity) : py_scope.
Notation "m ;; k" := (bind m (fun _ => k))
  (at level 61, right associativity) : py_scope.
Open Scope py_scope.

(** An operation that may raise and touches no state. *)
Definition lift {A} (r : exc A) : M A := fun w => (r, w).

(** [try: m  except Exception as e: h e] *)
Definition try_except {A} (m : M A) (h : exn -> M A) : M A :=
  fun w =>
    match m w with
    | (Ok a, w') => (Ok a, w')
    | (Raise e, w') => h e w'
    end.

(** [write_log(message)]; writing the log is taken to succeed. *)
Definition write_log (ev : event) : M unit :=
  fun w => (Ok tt, mkWorld (log w ++ [ev]) (calls w) (files w)).

(** [df.to_csv(filename)] *)
Definition to_csv (a : artifact) (t : list dict) : M unit :=
  fun w => (Ok tt, mkWorld (log w) (calls w) (files w ++ [(a, t)])).

(** [time.sleep(0.5)] changes nothing that is observed here. *)
Definition time_sleep : M unit := ret tt.

(* ===================================================================== *)
(** ** Cell 3: the resolver *)
(* ===================================================================== *)

Definition alpha : char := 945%N.
Definition beta : char := 946%N.
Definition gamma : char := 947%N.

(** [original_name.replace('α','alpha').replace('β','beta').replace('γ','gamma')] *)
Definition alpha_name (original_name : str) : str :=
  replace gamma (lit "gamma")
    (replace beta (lit "beta")
       (replace alpha (lit "alpha") original_name)).

(** The candidate spellings of a name, in the order they are tried. *)
Definition names_to_try (compound_name : str) : list str :=
  let original_name := strip compound_name in
  dict_fromkeys [original_name; alpha_name original_name].

(** [b and len(b) > 0] *)
Definition nonempty (b : body) : bool :=
  match b with
  | Empty => false
  | _ => true
  end.

Definition json_loads (b : body) : exc value :=
  match b with
  | JsonText v => Ok v
  | _ => Raise JSONDecodeError
  end.

Definition exc_bind {A B} (r : exc A) (k : A -> exc B) : exc B :=
  match r with
  | Ok a => k a
  | Raise e => Raise e
  end.

(** [json.loads(cid_reply)['IdentifierList']['CID'][0]] *)
Definition first_cid (b : body) : exc value :=
  exc_bind (json_loads b) (fun j =>
  exc_bind (getitem j (lit "IdentifierList")) (fun l =>
  exc_bind (getitem l (lit "CID")) (fun c =>
  getindex c 0))).

(** [json.loads(smiles_reply)['PropertyTable']['Properties'][0]['SMILES']] *)
Definition smiles_of (b : body) : exc value :=
  exc_bind (json_loads b) (fun j =>
  exc_bind (getitem j (lit "PropertyTable")) (fun t =>
  exc_bind (getitem t (lit "Properties")) (fun p =>
  exc_bind (getindex p 0) (fun r =>
  getitem r (lit "SMILES"))))).

(** The tuple [(cid, smiles, status)]. *)
Definition resolution : Type := value * value * str.

Definition failed_resolution : resolution := (VNone, VNone, status_failed).

(** How one pass through the loop body ends: the loop goes on (the body
    ran out, or hit [continue]), or the function returns. *)
Inductive flow (R : Type) : Type :=
| Next
| Return (r : R).
Arguments Next {R}.
Arguments Return {R} r.

Section Resolver.

Variable svc : service.

Definition urlopen (q : request) : M body :=
  fun w =>
    let w' := mkWorld (log w) (calls w ++ [q]) (files w) in
    match svc (calls w) q with
    | Raises e => (Raise e, w')
    | Read b => (Ok b, w')
    end.

(** The body of [for i, name_attempt in enumerate(names_to_try)]. *)
Definition attempt (i : nat) (name_attempt : str) : M (flow resolution) :=
  write_log (LogSearching name_attempt) ;;
  try_except
    (cid_reply <- urlopen (CidsByName name_attempt) ;;
     if negb (nonempty cid_reply) then ret Next
     else
       cid_result <- lift (first_cid cid_reply) ;;
       write_log (LogFoundCid cid_result) ;;
       smiles_reply <- urlopen (SmilesByCid cid_result) ;;
       if nonempty smiles_reply then
         smiles_result <- lift (smiles_of smiles_reply) ;;
         let status_result :=
           if Nat.eqb i 0 then status_original else status_variant in
         write_log (LogSuccess cid_result) ;;
         ret (Return (cid_result, smiles_result, status_result))
       else ret Next)
    (fun e => write_log (LogFailedFor name_attempt e) ;; ret Next).

Fixpoint attempts (i : nat) (names : list str) : M (flow resolution) :=
  match names with
  | [] => ret Next
  | name_attempt :: rest =>
      r <- attempt i name_attempt ;;
      match r with
      | Return x => ret (Return x)
      | Next => attempts (S i) rest
      end
  end.

Definition get_cid_and_smiles (compound_name : str) : M resolution :=
  let original_name := strip compound_name in
  r <- attempts 0 (names_to_try compound_name) ;;
  match r with
  | Return x => ret x
  | Next =>
      write_log (LogAllFailed original_name) ;;
      ret failed_resolution
  end.

End Resolver.

(* ===================================================================== *)
(** ** Tables *)
(* ===================================================================== *)

(** A cell of the input table as [read_csv] types it. *)
Inductive cell : Type :=
| CNaN
| CBool (b : bool)
| CInt (z : Z)
| CFloat (repr : str)
| CStr (s : str).

(** [str(c)] *)
Definition py_str (c : cell) : str :=
  match c with
  | CNaN => lit "nan"
  | CBool true => lit "True"
  | CBool false => lit "False"
  | CInt z => of_Z z
  | CFloat r => r
  | CStr s => s
  end.

Definition value_of_cell (c : cell) : value :=
  match c with
  | CNaN => VNaN
  | CBool b => VBool b
  | CInt z => VInt z
  | CFloat r => VFloat r
  | CStr s => VStr s
  end.

Definition cell_eqb (a b : cell) : bool :=
  match a, b with
  | CNaN, CNaN => true
  | CBool x, CBool y => Bool.eqb x y
  | CInt x, CInt y => Z.eqb x y
  | CFloat x, CFloat y => PyStr.eqb x y
  | CStr x, CStr y => PyStr.eqb x y
  | _, _ => false
  end.

(** A [DataFrame] read from a file: the header and the data lines.  A line
    shorter than the header is read as padded with missing cells. *)
Record DataFrame : Type := mkFrame {
  columns : list str;
  rows : list (list cell)
}.

(** [pd.DataFrame()] *)
Definition empty_frame : DataFrame := mkFrame [] [].

Definition len (df : DataFrame) : nat := length (rows df).

(** A row as [iterrows] yields it: the cells labelled by column, each as it
    was read (so it is for every row holding a text cell, the name for
    one). *)
Definition Series := list (str * cell).

Fixpoint series (cols : list str) (r : list cell) : Series :=
  match cols with
  | [] => []
  | c :: cs => (c, hd CNaN r) :: series cs (tl r)
  end.

Definition iterrows (df : DataFrame) : list Series :=
  map (series (columns df)) (rows df).

(** [row[col]] *)
Definition row_getitem (row : Series) (col : str) : exc cell :=
  match assoc col row with
  | Some c => Ok c
  | None => Raise KeyError
  end.

(** [d[k] = v] *)
Fixpoint dict_set (k : str) (v : value) (d : dict) : dict :=
  match d with
  | [] => [(k, v)]
  | (k', v') :: t =>
      if PyStr.eqb k k' then (k', v) :: t else (k', v') :: dict_set k v t
  end.

(** A cell of a frame built from a list of dicts: a key a dict lacks reads
    as a missing cell. *)
Definition frame_get (r : dict) (col : str) : value :=
  match assoc col r with
  | Some v => v
  | None => VNaN
  end.

(* ===================================================================== *)
(** ** Cell 1: setup *)
(* ===================================================================== *)

(** The results folder is created and the log opened by its first two
    lines. *)
Definition cell1 : M unit :=
  write_log LogStarted ;;
  write_log LogFolder.

(* ===================================================================== *)
(** ** Cell 2: reading and validating the input *)
(* ===================================================================== *)

Inductive file : Type :=
| Absent
| Unreadable (e : exn)
| Csv (df : DataFrame).

Definition read_csv (f : file) : exc DataFrame :=
  match f with
  | Absent => Raise FileNotFoundError
  | Unreadable e => Raise e
  | Csv df => Ok df
  end.

Fixpoint cell_mem (c : cell) (l : list cell) : bool :=
  match l with
  | [] => false
  | x :: t => cell_eqb c x || cell_mem c t
  end.

Fixpoint duplicated_from (seen l : list cell) : nat :=
  match l with
  | [] => 0
  | c :: t =>
      if cell_mem c seen then S (duplicated_from seen t)
      else duplicated_from (c :: seen) t
  end.

(** [s.duplicated().sum()] *)
Definition duplicated_sum (l : list cell) : nat := duplicated_from [] l.

(** [df[col]] for a column that exists. *)
Definition column (df : DataFrame) (col : str) : list cell :=
  map (fun row => match assoc col row with Some c => c | None => CNaN end)
      (iterrows df).

Definition cell2 (f : file) : M DataFrame :=
  try_except
    (df_input <- lift (read_csv f) ;;
     write_log LogReadOk ;;
     write_log (LogTotalCompounds (len df_input)) ;;
     write_log (LogColumns (columns df_input)) ;;
     (if negb (mem (lit "Name") (columns df_input))
      then lift (Raise ValueError) else ret tt) ;;
     let duplicates := duplicated_sum (column df_input (lit "Name")) in
     (if Nat.ltb 0 duplicates
      then write_log (LogDuplicates duplicates) else ret tt) ;;
     ret df_input)
    (fun e =>
       match e with
       | FileNotFoundError =>
           write_log LogCriticalNotFound ;; ret empty_frame
       | _ =>
           write_log (LogCriticalReadFailed e) ;; ret empty_frame
       end).

(* ===================================================================== *)
(** ** Cell 4: the processing loop *)
(* ===================================================================== *)

(** The counters and the list the loop accumulates. *)
Record batch : Type := mkBatch {
  success_count : nat;
  failed_count : nat;
  failed_compounds : list str;
  results : list dict
}.

(** [for col in df_input.columns: if col != 'Name': result_row[col] = row[col]] *)
Fixpoint copy_columns (cols : list str) (row : Series) (result_row : dict)
  : exc dict :=
  match cols with
  | [] => Ok result_row
  | col :: rest =>
      if negb (PyStr.eqb col (lit "Name")) then
        exc_bind (row_getitem row col) (fun c =>
        copy_columns rest row (dict_set col (value_of_cell c) result_row))
      else copy_columns rest row result_row
  end.

Definition result_row0 (compound_name : str) (r : resolution) : dict :=
  let '(cid, smiles, status) := r in
  [ (lit "Name", VStr compound_name);
    (lit "PubChem_CID", cid);
    (lit "Smiles", smiles);
    (lit "Status", VStr status) ].

Section Orchestrator.

Variable svc : service.

(** The body of [for index, row in df_input.iterrows()]. *)
Definition process_row (df_input : DataFrame) (acc : batch)
    (index : nat) (row : Series) : M batch :=
  name_cell <- lift (row_getitem row (lit "Name")) ;;
  let compound_name := strip (py_str name_cell) in
  write_log (LogProcessing (index + 1) (len df_input) compound_name) ;;
  r <- get_cid_and_smiles svc compound_name ;;
  let status := snd r in
  let acc :=
    if contains (lit "Success") status
    then mkBatch (success_count acc + 1) (failed_count acc)
                 (failed_compounds acc) (results acc)
    else mkBatch (success_count acc) (failed_count acc + 1)
                 (failed_compounds acc ++ [compound_name]) (results acc) in
  result_row <-
    lift (copy_columns (columns df_input) row (result_row0 compound_name r)) ;;
  time_sleep ;;
  ret (mkBatch (success_count acc) (failed_count acc)
               (failed_compounds acc) (results acc ++ [result_row])).

Fixpoint process_rows (df_input : DataFrame) (acc : batch)
    (index : nat) (rs : list Series) : M batch :=
  match rs with
  | [] => ret acc
  | row :: rest =>
      acc' <- process_row df_input acc index row ;;
      process_rows df_input acc' (S index) rest
  end.

Fixpoint log_failed_names (l : list str) : M unit :=
  match l with
  | [] => ret tt
  | name :: t => write_log (LogFailedName name) ;; log_failed_names t
  end.

(** Cell 4.  [None] when the guard on an empty input is taken: nothing is
    then bound to [results] or [df_results]. *)
Definition cell4 (df_input : DataFrame) : M (option batch) :=
  if Nat.eqb (len df_input) 0 then
    write_log LogNoInput ;; ret None
  else
    write_log (LogStarting (len df_input)) ;;
    b <- process_rows df_input (mkBatch 0 0 [] []) 0 (iterrows df_input) ;;
    (* pd.DataFrame(results): the frame is its rows *)
    let df_results := results b in
    to_csv FullResults df_results ;;
    write_log LogRule ;;
    write_log LogCompleted ;;
    write_log (LogSummaryTotal (len df_input)) ;;
    write_log (LogSummarySuccess (success_count b)) ;;
    write_log (LogSummaryFailed (failed_count b)) ;;
    write_log (LogSuccessRate (success_count b) (len df_input)) ;;
    (match failed_compounds b with
     | [] => ret tt
     | l => write_log LogFailedHeader ;; log_failed_names l
     end) ;;
    write_log (LogSaved FullResults) ;;
    write_log LogRule ;;
    ret (Some b).

End Orchestrator.

(* ===================================================================== *)
(** ** Cell 5: quality control *)
(* ===================================================================== *)

(** The Status and Smiles columns are columns of Python objects, as they
    are whenever they hold text or [None]; on such a column the [.str]
    methods work cell by cell and give a missing cell off text. *)

(** [s.str.contains(p, na=False)] on one cell: [False] off text. *)
Definition str_contains (p : str) (v : value) : bool :=
  match v with
  | VStr s => contains p s
  | _ => false
  end.

(** [pd.isna] on one cell. *)
Definition isna (v : value) : bool :=
  match v with
  | VNone | VNaN => true
  | _ => false
  end.

(** [s.str.strip()] on one cell: missing off text. *)
Definition str_strip (v : value) : value :=
  match v with
  | VStr s => VStr (strip s)
  | _ => VNaN
  end.

(** [v != ''] on one cell. *)
Definition ne_empty (v : value) : bool :=
  match v with
  | VStr [] => false
  | _ => true
  end.

Definition success_mask (r : dict) : bool :=
  str_contains (lit "Success") (frame_get r (lit "Status")).

Definition quality_control (df_results : list dict) : list dict :=
  let df_clean := filter success_mask df_results in
  let df_clean :=
    filter (fun r => negb (isna (frame_get r (lit "Smiles")))) df_clean in
  filter (fun r => ne_empty (str_strip (frame_get r (lit "Smiles")))) df_clean.

(** Cell 5.  [b] is [None] when Cell 4 bound no [df_results]. *)
Definition cell5 (df_input : DataFrame) (b : option batch)
  : M (option (list dict)) :=
  match b with
  | Some b =>
      let df_results := results b in
      if Nat.ltb 0 (length df_results) then
        write_log LogQCPhase ;;
        let initial_count := length (filter success_mask df_results) in
        let df_clean := quality_control df_results in
        let final_count := length df_clean in
        write_log LogQCResults ;;
        write_log (LogQCInitial initial_count) ;;
        write_log (LogQCRemoved (initial_count - final_count)) ;;
        write_log (LogQCFinal final_count) ;;
        to_csv CleanResults df_clean ;;
        write_log (LogSaved CleanResults) ;;
        write_log LogReady ;;
        write_log LogFinalHeader ;;
        write_log (LogFinalOriginal (len df_input)) ;;
        write_log (LogFinalProcessed (success_count b)) ;;
        write_log (LogFinalReady final_count) ;;
        write_log (LogFinalRate final_count (len df_input)) ;;
        ret (Some df_clean)
      else write_log LogNoResults ;; ret None
  | None => write_log LogNoResults ;; ret None
  end.

(** The cells run in order on a fresh kernel. *)
Definition notebook (svc : service) (f : file)
  : M (option batch * option (list dict)) :=
  cell1 ;;
  df_input <- cell2 f ;;
  b <- cell4 svc df_input ;;
  c <- cell5 df_input b ;;
  ret (b, c).

(* ===================================================================== *)
(** ** What the specification says, in its own words *)
(* ===================================================================== *)

Definition is_greek (c : char) : bool :=
  N.eqb c alpha || N.eqb c beta || N.eqb c gamma.

(** The normalized variant as the specification words it: each Greek letter
    replaced, in one pass, by its spelled-out name. *)
Definition greek_variant (s : str) : str :=
  flat_map (fun c =>
    if N.eqb c alpha then lit "alpha"
    else if N.eqb c beta then lit "beta"
    else if N.eqb c gamma then lit "gamma"
    else [c]) s.

(** A success variant of the status. *)
Definition success_variant (status : str) : Prop :=
  status = status_original \/ status = status_variant.

(** Text that is empty or made of whitespace only. *)
Definition whitespace_only (v : value) : bool :=
  match v with
  | VStr s => forallb isspace s
  | _ => false
  end.


(** The names asked of the service, in the order they were asked. *)
Fixpoint names_queried (l : list request) : list str :=
  match l with
  | [] => []
  | CidsByName n :: t => n :: names_queried t
  | SmilesByCid _ :: t => names_queried t
  end.

(** One candidate against a stable service: the identifier and structure it
    yields, if both lookups deliver. *)
Definition lookup (f : request -> reply) (candidate : str)
  : option (value * value) :=
  match f (CidsByName candidate) with
  | Read b1 =>
      if nonempty b1 then
        match first_cid b1 with
        | Ok c =>
            match f (SmilesByCid c) with
            | Read b2 =>
                if nonempty b2 then
                  match smiles_of b2 with
                  | Ok s => Some (c, s)
                  | Raise _ => None
                  end
                else None
            | Raises _ => None
            end
        | Raise _ => None
        end
      else None
  | Raises _ => None
  end.

(** The first success of an ordered chain of candidates, or failure. *)
Fixpoint first_success (f : request -> reply) (i : nat) (names : list str)
  : resolution :=
  match names with
  | [] => failed_resolution
  | n :: rest =>
      match lookup f n with
      | Some (c, s) =>
          (c, s, if Nat.eqb i 0 then status_original else status_variant)
      | None => first_success f (S i) rest
      end
  end.

(** The two names of the specification's scenarios. *)
Definition tocopherol : str := alpha :: lit "-Tocopherol".
Definition pinene : str := lit "alpha-Pinene".


(** The service answered the two lookups for a candidate with what [r]
    holds: a non-empty body whose first identifier is [r]'s, then a
    non-empty body whose SMILES property is [r]'s structure. *)
Definition answers (svc : service) (candidate : str) (r : resolution) : Prop :=
  exists h1 b1 h2 b2,
    svc h1 (CidsByName candidate) = Read b1 /\ nonempty b1 = true /\
    first_cid b1 = Ok (fst (fst r)) /\
    svc h2 (SmilesByCid (fst (fst r))) = Read b2 /\ nonempty b2 = true /\
    smiles_of b2 = Ok (snd (fst r)).

(** [r] is a success at candidate number [k] of a list whose first
    candidate has number [i]. *)
Definition delivered_at (svc : service) (names : list str) (i k : nat)
    (r : resolution) : Prop :=
  exists candidate,
    nth_error names k = Some candidate /\
    answers svc candidate r /\
    snd r = (if Nat.eqb (i + k) 0 then status_original else status_variant).

(** The invariant of a resolution as the specification states it: the
    identifier is null iff the structure is null iff the status is Failed. *)
Definition null_invariant (r : resolution) : Prop :=
  let '(cid, smiles, status) := r in
  (cid = VNone <-> smiles = VNone) /\ (smiles = VNone <-> status = status_failed).

(** A service that never delivers JSON null as the first identifier or as
    the SMILES property. *)
Definition null_free (svc : service) : Prop :=
  (forall h n b, svc h (CidsByName n) = Read b -> first_cid b <> Ok VNone) /\
  (forall h c b, svc h (SmilesByCid c) = Read b -> smiles_of b <> Ok VNone).

(** A structure that is non-empty text. *)
Definition nonempty_text (v : value) : Prop :=
  match v with
  | VStr (_ :: _) => True
  | _ => False
  end.

(** The body of an answer to the name lookup. *)
Definition cids_json (cids : list value) : body :=
  JsonText (VDict [(lit "IdentifierList", VDict [(lit "CID", VList cids)])]).

(** The body of an answer to the structure lookup. *)
Definition smiles_json (cid smiles : value) : body :=
  JsonText (VDict [(lit "PropertyTable",
    VDict [(lit "Properties",
      VList [VDict [(lit "CID", cid); (lit "SMILES", smiles)]])])]).

(** A mocked service knowing one name: it answers that name with one
    identifier and every identifier with one structure, and any other name
    with HTTP status 404. *)
Definition mock (name : str) (cid smiles : value) : request -> reply :=
  fun q =>
    match q with
    | CidsByName n =>
        if PyStr.eqb n name then Read (cids_json [cid])
        else Raises (HTTPError 404)
    | SmilesByCid c => Read (smiles_json c smiles)
    end.

Definition aspirin : str := lit "aspirin".
Definition aspirin_smiles : str := lit "CC(=O)OC1=CC=CC=C1C(=O)O".


(** The violations of the input contract: no file, a file that cannot be
    read, a table without the Name column. *)
Definition contract_violation (f : file) : Prop :=
  match f with
  | Absent => True
  | Unreadable _ => True
  | Csv df => mem (lit "Name") (columns df) = false
  end.

(** The lines reporting a fatal input error. *)
Definition is_critical (ev : event) : bool :=
  match ev with
  | LogCriticalNotFound | LogCriticalReadFailed _ => true
  | _ => false
  end.

(** The lines written while a record is processed. *)
Definition is_processing (ev : event) : bool :=
  match ev with
  | LogProcessing _ _ _ | LogSearching _ | LogFoundCid _ | LogSuccess _
  | LogFailedFor _ _ | LogAllFailed _ => true
  | _ => false
  end.

(** The run summary reports a total of [n] compounds. *)
Definition reports_total (w : world) (n : nat) : Prop :=
  In (LogSummaryTotal n) (log w).

(** A two-line table with a pass-through column named Status. *)
Definition sample_frame : DataFrame :=
  mkFrame [lit "Name"; lit "Formula"; lit "Status"]
    [ [CStr aspirin; CStr (lit "C9H8O4"); CStr (lit "reviewed")];
      [CStr (lit " unknown "); CStr (lit "?"); CNaN] ].

(** A table with its header and no data line. *)
Definition header_only : DataFrame := mkFrame [lit "Name"; lit "Formula"] [].

Definition sample_service : service :=
  stable (mock aspirin (VInt 2244) (VStr aspirin_smiles)).



(* ===================================================================== *)
(** ** Further notions for the properties of the cells *)
(* ===================================================================== *)

(** The world only grew: lines, requests and files were appended. *)
Definition appended (w w' : world) : Prop :=
  (exists l, log w' = log w ++ l)
  /\ (exists c, calls w' = calls w ++ c)
  /\ (exists f, files w' = files w ++ f).



(* ===================================================================== *)
(** ** Cell 6: the optional download *)
(* ===================================================================== *)





(* ===================================================================== *)
(** ** The troubleshooting guide's helpers *)
(* ===================================================================== *)

(** How [make_request_with_backoff] ends: it returns the bytes read,
    re-raises what [urlopen] raised, or raises its own
    [Exception("Max retries exceeded")]. *)
Inductive backoff_result : Type :=
| Returned (b : body)
| Reraised (e : exn)
| MaxRetriesExceeded.

(** [for attempt in range(max_retries)], by the attempts left.  The sleeps
    change nothing that is observed here. *)
Fixpoint retry_loop (svc : service) (url : request) (left : nat) (w : world)
  : backoff_result * world :=
  match left with
  | 0 => (MaxRetriesExceeded, w)
  | S k =>
      match urlopen svc url w with
      | (Ok b, w') => (Returned b, w')
      | (Raise (HTTPError code), w') =>
          if Z.eqb code 429 then retry_loop svc url k w'
          else (Reraised (HTTPError code), w')
      | (Raise e, w') => (Reraised e, w')
      end
  end.

Definition make_request_with_backoff (svc : service) (url : request)
    (max_retries : nat) (w : world) : backoff_result * world :=
  retry_loop svc url max_retries w.

(** [s.replace(old, new)] for a non-empty [old]: matches are taken from the
    left and do not overlap; [skip] counts the characters of a match still
    to pass over. *)
Fixpoint replace_from (old new : str) (skip : nat) (s : str) : str :=
  match s with
  | [] => []
  | c :: t =>
      match skip with
      | S k => replace_from old new k t
      | 0 =>
          if startswith s old
          then new ++ replace_from old new (length old - 1) t
          else c :: replace_from old new 0 t
      end
  end.

Definition replace_str (old new s : str) : str := replace_from old new 0 s.

(** The characters the pattern [[^\x20-\x7E]] leaves. *)
Definition printable (c : char) : bool := ((32 <=? c) && (c <=? 126))%N.

(** What [fix_encoding_issues] does to the text of one cell of an object
    column: the three replacements towards the Greek letters, then the
    removal of every character outside the printable ASCII range. *)
Definition fix_encoding_text (s : str) : str :=
  filter printable
    (replace_str [206; 179]%N [gamma]
       (replace_str [206; 178]%N [beta]
          (replace_str [226]%N [alpha] s))).

(** [invalid_chars] of [validate_smiles]: the characters
    less-than, greater-than, double quote, quote, backslash and bar. *)
Definition invalid_chars : list char := [60; 62; 34; 39; 92; 124]%N.

(** [for char in invalid_chars: if char in smiles: return ...] *)
Fixpoint first_invalid (chars : list char) (smiles : str) : option char :=
  match chars with
  | [] => None
  | ch :: rest =>
      if contains [ch] smiles then Some ch else first_invalid rest smiles
  end.

Section ValidateSmiles.

(** [c.isalpha()], a table of the Unicode database. *)
Variable isalpha : char -> bool.

(** [validate_smiles] on text. *)
Definition validate_smiles (smiles : str) : bool * str :=
  if (match smiles with [] => true | _ => false end)
     || Nat.eqb (length (strip smiles)) 0
  then (false, lit "Empty SMILES")
  else
    match first_invalid invalid_chars smiles with
    | Some ch => (false, lit "Invalid character: " ++ [ch])
    | None =>
        if negb (existsb isalpha smiles) then (false, lit "No atoms found")
        else (true, lit "Valid")
    end.

End ValidateSmiles.

(** The letters of ASCII. *)
Definition ascii_isalpha (c : char) : bool :=
  ((65 <=? c) && (c <=? 90) || (97 <=? c) && (c <=? 122))%N.

(** The first [n] requests for [url] from the world [w] on are all answered
    with HTTP status 429. *)
Definition rate_limited (svc : service) (url : request) (w : world)
    (n : nat) : Prop :=
  forall i, i < n ->
    svc (calls w ++ repeat url i) url = Raises (HTTPError 429).

(** The names the log announces as searched, in order. *)
Fixpoint searched (l : list event) : list str :=
  match l with
  | [] => []
  | LogSearching n :: t => n :: searched t
  | _ :: t => searched t
  end.

(** The two lines that close a run of the resolver. *)
Definition is_verdict (ev : event) : bool :=
  match ev with
  | LogSuccess _ | LogAllFailed _ => true
  | _ => false
  end.

(** A line giving a rate has a total that is not zero. *)
Definition rate_defined (ev : event) : bool :=
  match ev with
  | LogSuccessRate _ total | LogFinalRate _ total => Nat.ltb 0 total
  | _ => true
  end.

(** A triple for the lines a computation writes: from any world it only
    appends lines, every rate among them is defined, and a value it returns
    satisfies [Q]. *)
Definition writes_defined_rates {A : Type} (m : M A) (Q : A -> Prop) : Prop :=
  forall w,
    exists lg,
      log (snd (m w)) = log w ++ lg
      /\ forallb rate_defined lg = true
      /\ match fst (m w) with
         | Ok a => Q a
         | Raise _ => True
         end.

(** [re.sub(r'\s+', ' ', s)]: every maximal run of whitespace becomes one
    space; [in_run] tells that the character before was whitespace. *)
Fixpoint collapse_spaces (in_run : bool) (s : str) : str :=
  match s with
  | [] => []
  | c :: t =>
      if isspace c then
        if in_run then collapse_spaces true t
        else 32%N :: collapse_spaces true t
      else c :: collapse_spaces false t
  end.

(** [clean_compound_name] of the troubleshooting guide: the name trimmed,
    its whitespace collapsed, then the minus sign and the en dash replaced
    by a hyphen. *)
Definition clean_compound_name (name : str) : str :=
  let cleaned := collapse_spaces false (strip name) in
  let cleaned := replace 8722%N (lit "-") cleaned in
  replace 8211%N (lit "-") cleaned.

(** What the two replacements make of one character. *)
Definition to_hyphen (c : char) : char :=
  let c1 := if N.eqb c 8722 then 45%N else c in
  if N.eqb c1 8211 then 45%N else c1.

(** Whitespace occurs only as single spaces; [after_space] tells that the
    character before was one. *)
Fixpoint single_spaced (after_space : bool) (s : str) : bool :=
  match s with
  | [] => true
  | c :: t =>
      if isspace c
      then N.eqb c 32 && negb after_space && single_spaced true t
      else single_spaced false t
  end.
(* ===================================================================== *)
(** ** Text lemmas *)
(* ===================================================================== *)

Lemma eqb_eq (a b : str) : PyStr.eqb a b = true <-> a = b.
Proof.
  revert b. induction a as [|x a IH]; intros [|y b]; simpl;
    try (split; (reflexivity || discriminate)).
  rewrite andb_true_iff, N.eqb_eq, IH. split.
  - intros [-> ->]. reflexivity.
  - intros E. injection E. auto.
Qed.

Lemma eqb_refl (a : str) : PyStr.eqb a a = true.
Proof. apply eqb_eq. reflexivity. Qed.

Lemma eqb_neq (a b : str) : PyStr.eqb a b = false <-> a <> b.
Proof.
  rewrite <- eqb_eq. destruct (PyStr.eqb a b); split; congruence.
Qed.


Lemma lstrip_nil (s : str) : lstrip s = [] <-> forallb isspace s = true.
Proof.
  induction s as [|c s IH]; simpl.
  - tauto.
  - destruct (isspace c); simpl; [exact IH | split; discriminate].
Qed.

Lemma lstrip_head (s : str) (c : char) (t : str) :
  lstrip s = c :: t -> isspace c = false.
Proof.
  induction s as [|x s IH]; simpl; [discriminate|].
  destruct (isspace x) eqn:E; [exact IH|].
  intros H. injection H as -> _. exact E.
Qed.

Lemma forallb_rev (f : char -> bool) (s : str) :
  forallb f (rev s) = forallb f s.
Proof.
  induction s as [|c s IH]; simpl; [reflexivity|].
  rewrite forallb_app, IH. simpl. rewrite andb_true_r. apply andb_comm.
Qed.

Lemma rev_nil (s : str) : rev s = [] <-> s = [].
Proof.
  split; [|intros ->; reflexivity].
  intros H. apply (f_equal (@rev char)) in H.
  rewrite rev_involutive in H. exact H.
Qed.

(** [strip] leaves nothing exactly of the texts made of whitespace. *)
Lemma strip_nil (s : str) : strip s = [] <-> forallb isspace s = true.
Proof.
  unfold strip, rstrip.
  rewrite rev_nil, lstrip_nil, forallb_rev, <- (lstrip_nil s).
  destruct (lstrip s) as [|c t] eqn:E; simpl.
  - tauto.
  - rewrite (lstrip_head _ E). simpl. split; discriminate.
Qed.

Lemma replace_app (old : char) (new a b : str) :
  replace old new (a ++ b) = replace old new a ++ replace old new b.
Proof. unfold replace. apply flat_map_app. Qed.

Lemma replace_absent (old : char) (new s : str) :
  ~ In old s -> replace old new s = s.
Proof.
  induction s as [|c s IH]; simpl; intros H; [reflexivity|].
  destruct (N.eqb_spec c old) as [->|_]; [exfalso; apply H; now left|].
  simpl. f_equal. apply IH. intros F. apply H. now right.
Qed.

(** Replacing one letter after the other is replacing them in one pass:
    no spelled-out name holds a Greek letter. *)
Lemma alpha_name_greek_variant (s : str) : alpha_name s = greek_variant s.
Proof.
  unfold alpha_name.
  induction s as [|c s IH]; [reflexivity|].
  change (c :: s) with ([c] ++ s).
  rewrite !replace_app, IH. unfold greek_variant at 2.
  rewrite flat_map_app. f_equal.
  unfold replace. simpl.
  destruct (N.eqb_spec c alpha) as [->|Ha]; [reflexivity|]. simpl.
  destruct (N.eqb_spec c beta) as [->|Hb]; [reflexivity|]. simpl.
  destruct (N.eqb_spec c gamma) as [->|Hg]; reflexivity.
Qed.

Lemma greek_variant_length (s : str) :
  length s <= length (greek_variant s).
Proof.
  induction s as [|c s IH]; simpl; [lia|].
  rewrite length_app.
  destruct (N.eqb c alpha); [simpl; lia|].
  destruct (N.eqb c beta); [simpl; lia|].
  destruct (N.eqb c gamma); simpl; lia.
Qed.

(** The variant is the name itself exactly when the name holds no Greek
    letter. *)
Lemma greek_variant_fixed (s : str) :
  greek_variant s = s <-> forallb (fun c => negb (is_greek c)) s = true.
Proof.
  induction s as [|c s IH]; simpl; [tauto|].
  unfold is_greek.
  pose proof (greek_variant_length s) as L.
  destruct (N.eqb c alpha) eqn:Ea; simpl.
  { split; [|discriminate]. intros H.
    apply (f_equal (@length char)) in H. simpl in H. lia. }
  destruct (N.eqb c beta) eqn:Eb; simpl.
  { split; [|discriminate]. intros H.
    apply (f_equal (@length char)) in H. simpl in H. lia. }
  destruct (N.eqb c gamma) eqn:Eg; simpl.
  { split; [|discriminate]. intros H.
    apply (f_equal (@length char)) in H. simpl in H. lia. }
  rewrite <- IH. split; [intros H; injection H; auto | intros ->; reflexivity].
Qed.

Lemma names_to_try_unfold (compound_name : str) :
  names_to_try compound_name =
  let original := strip compound_name in
  if PyStr.eqb (alpha_name original) original then [original]
  else [original; alpha_name original].
Proof.
  unfold names_to_try, dict_fromkeys. simpl.
  rewrite orb_false_r.
  destruct (PyStr.eqb (alpha_name (strip compound_name)) (strip compound_name));
    reflexivity.
Qed.

(** C5.  The Name Normalizer yields the trimmed original followed by its
    Greek-normalized variant (alpha, beta and gamma spelled out); the list
    is never empty, the trimmed original is first, nothing is repeated, and
    the variant is left out exactly when it is the original itself, which
    is exactly when the name holds no Greek letter. *)
Theorem names_to_try_spec (compound_name : str) :
  let original := strip compound_name in
  let variant := greek_variant original in
  alpha_name original = variant
  /\ names_to_try compound_name =
       (if PyStr.eqb variant original then [original]
        else [original; variant])
  /\ hd_error (names_to_try compound_name) = Some original
  /\ NoDup (names_to_try compound_name)
  /\ (names_to_try compound_name = [original] <-> variant = original)
  /\ (variant = original <->
        forallb (fun c => negb (is_greek c)) original = true)
  /\ names_to_try tocopherol = [tocopherol; lit "alpha-Tocopherol"]
  /\ names_to_try pinene = [pinene].
Proof.
  intros original variant.
  assert (Hv : alpha_name original = variant)
    by apply alpha_name_greek_variant.
  split; [exact Hv|].
  pose proof (names_to_try_unfold compound_name) as U.
  cbv zeta in U. fold original in U. rewrite Hv in U.
  rewrite U.
  assert (Hfix : variant = original <->
            forallb (fun c => negb (is_greek c)) original = true)
    by apply greek_variant_fixed.
  destruct (PyStr.eqb variant original) eqn:E.
  - apply eqb_eq in E.
    split; [reflexivity|]. split; [reflexivity|].
    split; [constructor; [simpl; tauto | constructor]|].
    split; [tauto|]. split; [exact Hfix|].
    split; reflexivity.
  - apply eqb_neq in E.
    split; [reflexivity|]. split; [reflexivity|].
    split.
    { constructor; [simpl; intuition congruence|].
      constructor; [simpl; tauto | constructor]. }
    split; [split; [discriminate | contradiction]|].
    split; [exact Hfix|].
    split; reflexivity.
Qed.

(* ===================================================================== *)
(** ** The resolver *)
(* ===================================================================== *)

Lemma names_queried_app (a b : list request) :
  names_queried (a ++ b) = names_queried a ++ names_queried b.
Proof.
  induction a as [|[n|c] a IH]; simpl; congruence.
Qed.

Section ResolverFacts.

Variable svc : service.

Ltac run_attempt :=
  eexists; split; [reflexivity|]; cbn [calls files];
  rewrite ?names_queried_app; cbn [names_queried];
  rewrite ?app_nil_r; auto.

(** One pass through the loop body never raises: it asks for the
    candidate, and either goes on or returns what the service answered. *)
Lemma attempt_cases (i : nat) (n : str) (w : world) :
  (exists w',
      attempt svc i n w = (Ok Next, w') /\
      names_queried (calls w') = names_queried (calls w) ++ [n] /\
      files w' = files w)
  \/
  (exists r w',
      attempt svc i n w = (Ok (Return r), w') /\
      answers svc n r /\
      snd r = (if Nat.eqb i 0 then status_original else status_variant) /\
      names_queried (calls w') = names_queried (calls w) ++ [n] /\
      files w' = files w).
Proof.
  unfold attempt, bind, try_except, urlopen, write_log, lift, ret.
  cbn [log calls files].
  destruct (svc (calls w) (CidsByName n)) as [e|b1] eqn:E1.
  { left. run_attempt. }
  destruct (nonempty b1) eqn:N1; cbn [negb].
  2:{ left. run_attempt. }
  destruct (first_cid b1) as [c|e] eqn:F1.
  2:{ left. run_attempt. }
  cbn [log calls files].
  destruct (svc (calls w ++ [CidsByName n]) (SmilesByCid c)) as [e|b2] eqn:E2.
  { left. run_attempt. }
  destruct (nonempty b2) eqn:N2.
  2:{ left. run_attempt. }
  destruct (smiles_of b2) as [s|e] eqn:F2.
  2:{ left. run_attempt. }
  right. eexists. run_attempt.
  split; [|auto].
  exists (calls w), b1, (calls w ++ [CidsByName n]), b2.
  cbn [fst snd]. auto 10.
Qed.

Lemma attempts_cases (names : list str) (i : nat) (w : world) :
  (exists w',
      attempts svc i names w = (Ok Next, w') /\
      names_queried (calls w') = names_queried (calls w) ++ names /\
      files w' = files w)
  \/
  (exists r w' k,
      attempts svc i names w = (Ok (Return r), w') /\
      delivered_at svc names i k r /\
      names_queried (calls w') =
        names_queried (calls w) ++ firstn (S k) names /\
      files w' = files w).
Proof.
  revert i w. induction names as [|n rest IH]; intros i w.
  - left. exists w. cbn. rewrite app_nil_r. auto.
  - cbn [attempts]. unfold bind.
    destruct (attempt_cases i n w)
      as [(w1 & E & Q & F) | (r & w1 & E & A & S & Q & F)]; rewrite E.
    + destruct (IH (S i) w1)
        as [(w2 & E2 & Q2 & F2) | (r & w2 & k & E2 & D & Q2 & F2)].
      * left. exists w2. rewrite E2, Q2, Q, F2, F, <- app_assoc. auto.
      * right. exists r, w2, (S k). rewrite E2, Q2, Q, F2, F, <- app_assoc.
        repeat split; auto.
        destruct D as (cand & Hn & Ha & Hs).
        exists cand. rewrite Nat.add_succ_r. auto.
    + right. exists r, w1, 0. cbn [ret firstn]. rewrite Q, F.
      repeat split; auto.
      exists n. rewrite Nat.add_0_r. auto.
Qed.

(** The resolver returns, whatever the service does: the failed tuple once
    every candidate has been asked in turn, or the answer to the first
    candidate both of whose lookups delivered. *)
Lemma get_cid_and_smiles_cases (name : str) (w : world) :
  exists r w',
    get_cid_and_smiles svc name w = (Ok r, w') /\
    files w' = files w /\
    ((r = failed_resolution /\
      names_queried (calls w') =
        names_queried (calls w) ++ names_to_try name)
     \/
     (exists k,
        delivered_at svc (names_to_try name) 0 k r /\
        names_queried (calls w') =
          names_queried (calls w) ++ firstn (S k) (names_to_try name))).
Proof.
  unfold get_cid_and_smiles, bind.
  destruct (attempts_cases (names_to_try name) 0 w)
    as [(w1 & E & Q & F) | (r & w1 & k & E & D & Q & F)]; rewrite E.
  - eexists _, _. unfold write_log, ret. split; [reflexivity|].
    cbn [calls files]. auto.
  - exists r, w1. unfold ret. split; [reflexivity|]. split; [exact F|].
    right. exists k. auto.
Qed.

End ResolverFacts.

Lemma status_original_not_failed : status_original <> status_failed.
Proof. discriminate. Qed.

Lemma status_variant_not_failed : status_variant <> status_failed.
Proof. discriminate. Qed.

Lemma delivered_success (svc : service) (names : list str) (i k : nat)
    (r : resolution) :
  delivered_at svc names i k r -> success_variant (snd r).
Proof.
  intros (cand & _ & _ & S). rewrite S. unfold success_variant.
  destruct (Nat.eqb (i + k) 0); auto.
Qed.

Lemma success_not_failed (status : str) :
  success_variant status -> status <> status_failed.
Proof.
  intros [-> | ->];
    [apply status_original_not_failed | apply status_variant_not_failed].
Qed.

(** Against a stable service one pass through the loop body is the pure
    lookup of its candidate. *)
Lemma attempt_stable (f : request -> reply) (i : nat) (n : str) (w : world) :
  fst (attempt (stable f) i n w) =
  Ok (match lookup f n with
      | Some (c, s) =>
          Return (c, s, if Nat.eqb i 0 then status_original else status_variant)
      | None => Next
      end).
Proof.
  unfold attempt, lookup, stable, bind, try_except, urlopen, write_log,
    lift, ret.
  cbn [log calls files].
  destruct (f (CidsByName n)) as [e|b1]; [reflexivity|].
  destruct (nonempty b1); cbn [negb]; [|reflexivity].
  destruct (first_cid b1) as [c|e]; [|reflexivity].
  cbn [log calls files].
  destruct (f (SmilesByCid c)) as [e|b2]; [reflexivity|].
  destruct (nonempty b2); [|reflexivity].
  destruct (smiles_of b2) as [s|e]; reflexivity.
Qed.

Lemma attempts_stable (f : request -> reply) (names : list str) (i : nat)
    (w : world) :
  fst (attempts (stable f) i names w) =
  Ok (if existsb (fun n => match lookup f n with Some _ => true | None => false end)
           names
      then Return (first_success f i names) else Next).
Proof.
  revert i w. induction names as [|n rest IH]; intros i w; [reflexivity|].
  cbn [attempts first_success existsb]. unfold bind.
  pose proof (attempt_stable f i n w) as A.
  destruct (attempt (stable f) i n w) as [[[|r]|e] w1]; cbn [fst] in A;
    destruct (lookup f n) as [[c s]|]; try discriminate A.
  - cbn [orb]. apply IH.
  - injection A as ->. reflexivity.
Qed.

Lemma first_success_exhausted (f : request -> reply) (names : list str)
    (i : nat) :
  existsb (fun n => match lookup f n with Some _ => true | None => false end)
    names = false ->
  first_success f i names = failed_resolution.
Proof.
  revert i. induction names as [|n rest IH]; intros i; [reflexivity|].
  cbn [existsb first_success].
  destruct (lookup f n) as [[c s]|]; [discriminate|]. apply IH.
Qed.

(** Against a stable service the resolver is the first success of the
    ordered chain of candidates, whatever the log and the requests issued
    before. *)
Lemma get_cid_and_smiles_stable (f : request -> reply) (name : str)
    (w : world) :
  fst (get_cid_and_smiles (stable f) name w) =
  Ok (first_success f 0 (names_to_try name)).
Proof.
  unfold get_cid_and_smiles, bind.
  pose proof (attempts_stable f (names_to_try name) 0 w) as A.
  destruct (attempts (stable f) 0 (names_to_try name) w) as [[[|r]|e] w1];
    cbn [fst] in A;
    destruct (existsb _ (names_to_try name)) eqn:X; try discriminate A.
  - rewrite (first_success_exhausted f _ 0 X). reflexivity.
  - injection A as ->. reflexivity.
Qed.

(** The scenarios of the specification: a name without Greek letter that
    the service does not know fails; a name known only under its spelled-out
    variant succeeds as a variant with what the service returned. *)
Lemma pinene_unknown (f : request -> reply) (w : world) :
  lookup f pinene = None ->
  fst (get_cid_and_smiles (stable f) pinene w) = Ok failed_resolution.
Proof.
  intros L. rewrite get_cid_and_smiles_stable.
  change (names_to_try pinene) with [pinene].
  cbn [first_success]. rewrite L. reflexivity.
Qed.

Lemma tocopherol_variant (f : request -> reply) (w : world)
    (cid smiles : value) :
  lookup f tocopherol = None ->
  lookup f (lit "alpha-Tocopherol") = Some (cid, smiles) ->
  fst (get_cid_and_smiles (stable f) tocopherol w)
  = Ok (cid, smiles, status_variant).
Proof.
  intros L1 L2. rewrite get_cid_and_smiles_stable.
  change (names_to_try tocopherol)
    with [tocopherol; lit "alpha-Tocopherol"].
  cbn [first_success]. rewrite L1, L2. reflexivity.
Qed.

(* ===================================================================== *)
(** ** Claims on the resolver *)
(* ===================================================================== *)

(** C1, as stated, fails: a service whose structure answer holds JSON null
    for the SMILES property makes the resolver return a non-null identifier
    and a success status with a null structure. *)
Lemma success_with_null_structure :
  fst (get_cid_and_smiles (stable (mock aspirin (VInt 2244) VNone))
         aspirin world0)
    = Ok (VInt 2244, VNone, status_original)
  /\ ~ null_invariant (VInt 2244, VNone, status_original).
Proof.
  split; [reflexivity|].
  intros [H _]. destruct H as [_ H]. specialize (H eq_refl). discriminate H.
Qed.

(** C1, amended.  The status of a resolution is Failed or a success
    variant; a Failed resolution has a null identifier and a null structure;
    and when the service never delivers JSON null as the first identifier
    or as the SMILES property, the identifier is null iff the structure is
    null iff the status is Failed. *)
Theorem resolution_invariant (svc : service) (name : str) (w : world)
    (r : resolution) (w' : world) :
  get_cid_and_smiles svc name w = (Ok r, w') ->
  let '(cid, smiles, status) := r in
  (status = status_failed \/ success_variant status)
  /\ (status = status_failed -> cid = VNone /\ smiles = VNone)
  /\ (null_free svc -> null_invariant (cid, smiles, status)).
Proof.
  intros E.
  destruct (get_cid_and_smiles_cases svc name w)
    as (r0 & w0 & E0 & _ & [[-> _] | (k & D & _)]);
    rewrite E0 in E; injection E as <- _.
  - cbn. repeat split; auto.
  - pose proof (delivered_success D) as S.
    pose proof (success_not_failed S) as NF.
    destruct D as (cand & _ & (h1 & b1 & h2 & b2 & A1 & _ & C & A2 & _ & M) & _).
    destruct r0 as [[cid smiles] status]. cbn [fst snd] in *.
    split; [auto|]. split; [intros F; contradiction|].
    intros [NC NS].
    assert (cid <> VNone) by (intros ->; exact (NC _ _ _ A1 C)).
    assert (smiles <> VNone) by (intros ->; exact (NS _ _ _ A2 M)).
    unfold null_invariant. repeat split; intros; contradiction.
Qed.

(** The invariant at a service that knows aspirin. *)
Lemma resolution_invariant_witness :
  null_invariant
    (VInt 2244, VStr aspirin_smiles, status_original).
Proof.
  refine (proj2 (proj2 (@resolution_invariant
    (stable (mock aspirin (VInt 2244) (VStr aspirin_smiles)))
    aspirin world0
    (VInt 2244, VStr aspirin_smiles, status_original)
    (snd (get_cid_and_smiles
            (stable (mock aspirin (VInt 2244) (VStr aspirin_smiles)))
            aspirin world0))
    _)) _).
  - reflexivity.
  - split.
    + intros h n b. unfold stable, mock.
      destruct (PyStr.eqb n aspirin); intros H; [|discriminate H].
      injection H as <-. discriminate.
    + intros h c b. unfold stable, mock. intros H.
      injection H as <-. discriminate.
Defined.

(** C2, as stated, fails: a structure answer whose SMILES property is the
    empty text is a non-empty response, so the resolver returns success
    with an empty structure. *)
Lemma success_with_empty_structure :
  fst (get_cid_and_smiles (stable (mock aspirin (VInt 2244) (VStr [])))
         aspirin world0)
    = Ok (VInt 2244, VStr [], status_original)
  /\ success_variant status_original
  /\ ~ nonempty_text (VStr []).
Proof.
  split; [reflexivity|]. split; [left; reflexivity|]. intros H. exact H.
Qed.

(** C2, amended.  Whenever the resolver returns a success status, some
    candidate's two lookups delivered: the structure lookup for the returned
    identifier came back with a non-empty response body, and the returned
    structure is the SMILES property decoded from that body, whatever value
    that is. *)
Theorem success_structure_delivered (svc : service) (name : str) (w : world)
    (r : resolution) (w' : world) :
  get_cid_and_smiles svc name w = (Ok r, w') ->
  success_variant (snd r) ->
  exists k, delivered_at svc (names_to_try name) 0 k r.
Proof.
  intros E S.
  destruct (get_cid_and_smiles_cases svc name w)
    as (r0 & w0 & E0 & _ & [[-> _] | (k & D & _)]);
    rewrite E0 in E; injection E as <- _.
  - exfalso. exact (success_not_failed S eq_refl).
  - exists k. exact D.
Qed.

(** The success on aspirin is delivered by its first candidate. *)
Lemma success_structure_delivered_witness :
  exists k,
    delivered_at (stable (mock aspirin (VInt 2244) (VStr aspirin_smiles)))
      (names_to_try aspirin) 0 k
      (VInt 2244, VStr aspirin_smiles, status_original).
Proof.
  apply (@success_structure_delivered
    (stable (mock aspirin (VInt 2244) (VStr aspirin_smiles)))
    aspirin world0
    (VInt 2244, VStr aspirin_smiles, status_original)
    (snd (get_cid_and_smiles
            (stable (mock aspirin (VInt 2244) (VStr aspirin_smiles)))
            aspirin world0))).
  - reflexivity.
  - left. reflexivity.
Defined.


(** C9.  Against a stable service the resolver's tuple is a function of the
    name alone, the first success of the candidate chain: two runs on the
    same name, from whatever log and request history, and in particular a
    second run after the first, return the same tuple. *)
Theorem get_cid_and_smiles_deterministic (f : request -> reply) (name : str)
    (w1 w2 : world) :
  fst (get_cid_and_smiles (stable f) name w1)
    = Ok (first_success f 0 (names_to_try name))
  /\ fst (get_cid_and_smiles (stable f) name w2)
     = fst (get_cid_and_smiles (stable f) name w1)
  /\ fst (get_cid_and_smiles (stable f) name
            (snd (get_cid_and_smiles (stable f) name w1)))
     = fst (get_cid_and_smiles (stable f) name w1).
Proof.
  rewrite !get_cid_and_smiles_stable. auto.
Qed.

(* ===================================================================== *)
(** ** Rows and dicts *)
(* ===================================================================== *)







(* ===================================================================== *)
(** ** The processing loop *)
(* ===================================================================== *)

Section OrchestratorFacts.

Variable svc : service.
Variable df_input : DataFrame.
Hypothesis has_name : mem (lit "Name") (columns df_input) = true.





End OrchestratorFacts.

(* ===================================================================== *)
(** ** Claims on the batch *)
(* ===================================================================== *)





(** C7, as stated, fails: on a table with no data line no run summary is
    written, neither by Cell 4 alone nor by the whole notebook. *)
Lemma empty_input_no_summary :
  len header_only = 0
  /\ fst (cell4 sample_service header_only world0) = Ok None
  /\ ~ reports_total (snd (cell4 sample_service header_only world0)) 0
  /\ ~ reports_total (snd (notebook sample_service (Csv header_only) world0)) 0.
Proof.
  split; [reflexivity|]. split; [reflexivity|].
  split; intros H; cbv in H; intuition discriminate.
Qed.

(** On a table with rows the summary is written, with the table's length
    as its total. *)
Lemma sample_run_reports_total :
  reports_total (snd (cell4 sample_service sample_frame world0)) 2.
Proof.
  unfold reports_total. cbv. auto 30.
Qed.

(** C7, amended.  On an empty table Cell 4 takes its guard: it writes the
    one line saying that no input data is available, issues no request,
    saves nothing, and binds no results and no summary. *)
Theorem empty_input_short_circuits (svc : service) (df_input : DataFrame)
    (w : world) :
  len df_input = 0 ->
  cell4 svc df_input w
  = (Ok None, mkWorld (log w ++ [LogNoInput]) (calls w) (files w)).
Proof.
  intros L. unfold cell4. rewrite L. reflexivity.
Qed.

(** The header-only table takes the guard. *)
Lemma empty_input_short_circuits_witness :
  cell4 sample_service header_only world0
  = (Ok None, mkWorld [LogNoInput] [] []).
Proof.
  apply (@empty_input_short_circuits sample_service header_only world0).
  reflexivity.
Defined.

(** C8.  When the input file is absent or unreadable, or the table lacks
    the Name column, the notebook reports the fatal error in one line,
    processes no record (no request is issued, no processing line is
    written) and saves neither the full-result nor the clean-result table. *)
Theorem contract_violation_fatal (svc : service) (f : file) (w : world) :
  contract_violation f ->
  exists w' l,
    notebook svc f w = (Ok (None, None), w')
    /\ log w' = log w ++ l
    /\ length (filter is_critical l) = 1
    /\ existsb is_processing l = false
    /\ calls w' = calls w
    /\ files w' = files w.
Proof.
  intros V.
  destruct f as [|e|df].
  - eexists _, [_; _; _; _; _]. split; [reflexivity|].
    cbn [log calls files]. rewrite <- !app_assoc. repeat split.
  - destruct e;
      (eexists _, [_; _; _; _; _]; split; [reflexivity|];
       cbn [log calls files]; rewrite <- !app_assoc; repeat split).
  - change (mem (lit "Name") (columns df) = false) in V.
    unfold notebook, cell1, cell2, bind, try_except, lift, write_log, ret.
    cbn [read_csv log calls files]. rewrite V. cbn [negb].
    eexists _, [_; _; _; _; _; _; _; _]. split; [reflexivity|].
    cbn [log calls files]. rewrite <- !app_assoc. repeat split.
Qed.

(** The run without an input file. *)
Lemma contract_violation_fatal_witness :
  exists w' l,
    notebook sample_service Absent world0 = (Ok (None, None), w')
    /\ log w' = l
    /\ length (filter is_critical l) = 1
    /\ files w' = [].
Proof.
  destruct (@contract_violation_fatal sample_service Absent world0)
    as (w' & l & E & L & C & _ & _ & F).
  - exact I.
  - exists w', l. auto.
Defined.

(* ===================================================================== *)
(** ** Claims on the quality control *)
(* ===================================================================== *)


(** The last two filters of Cell 5 keep a cell exactly when it is neither
    missing nor text made of whitespace. *)
Lemma smiles_checks (v : value) :
  negb (isna v) && ne_empty (str_strip v)
  = negb (isna v) && negb (whitespace_only v).
Proof.
  destruct v; try reflexivity.
  cbn [isna negb andb str_strip ne_empty whitespace_only].
  pose proof (strip_nil s) as H.
  destruct (strip s) as [|c t]; destruct (forallb isspace s); try reflexivity.
  - destruct H as [H _]. discriminate (H eq_refl).
  - destruct H as [_ H]. discriminate (H eq_refl).
Qed.




(* ===================================================================== *)
(** ** Further properties of the resolver *)
(* ===================================================================== *)

Section ResolverRequests.

Variable svc : service.




End ResolverRequests.




Lemma greek_variant_no_greek (s : str) :
  forallb (fun c => negb (is_greek c)) (greek_variant s) = true.
Proof.
  induction s as [|c s IH]; [reflexivity|].
  cbn [greek_variant flat_map]. rewrite forallb_app.
  fold (greek_variant s). rewrite IH, andb_true_r.
  unfold is_greek.
  destruct (N.eqb c alpha) eqn:Ea; [reflexivity|].
  destruct (N.eqb c beta) eqn:Eb; [reflexivity|].
  destruct (N.eqb c gamma) eqn:Eg; [reflexivity|].
  cbn. rewrite Ea, Eb, Eg. reflexivity.
Qed.

Lemma forallb_lstrip (p : char -> bool) (s : str) :
  forallb p s = true -> forallb p (lstrip s) = true.
Proof.
  induction s as [|c s IH]; [auto|].
  cbn [lstrip]. destruct (isspace c); [|auto].
  cbn [forallb]. intros H. apply andb_true_iff in H. apply IH, H.
Qed.

Lemma forallb_strip (p : char -> bool) (s : str) :
  forallb p s = true -> forallb p (strip s) = true.
Proof.
  intros H. unfold strip, rstrip.
  rewrite forallb_rev. apply forallb_lstrip.
  rewrite forallb_rev. apply forallb_lstrip, H.
Qed.

(** X3.  The normalized variant holds no Greek letter, normalizing it again
    changes nothing, and a name that is already a variant has one
    candidate only. *)
Theorem alpha_name_normal (s : str) :
  forallb (fun c => negb (is_greek c)) (alpha_name s) = true
  /\ alpha_name (alpha_name s) = alpha_name s
  /\ names_to_try (alpha_name s) = [strip (alpha_name s)].
Proof.
  rewrite !alpha_name_greek_variant.
  pose proof (greek_variant_no_greek s) as G.
  split; [exact G|]. split.
  - apply greek_variant_fixed, G.
  - rewrite names_to_try_unfold. cbv zeta.
    rewrite alpha_name_greek_variant.
    assert (E : greek_variant (strip (greek_variant s))
                = strip (greek_variant s))
      by (apply greek_variant_fixed, forallb_strip, G).
    rewrite E, eqb_refl. reflexivity.
Qed.


(* ===================================================================== *)
(** ** Further properties of the processing loop *)
(* ===================================================================== *)

Section BatchFacts.

Variable svc : service.
Variable df_input : DataFrame.
Hypothesis has_name : mem (lit "Name") (columns df_input) = true.









End BatchFacts.







Lemma assoc_series_absent (cols : list str) (r : list cell) (c : str) :
  mem c cols = false -> assoc c (series cols r) = None.
Proof.
  revert r. induction cols as [|a cols IH]; intros r H; [reflexivity|].
  cbn [mem] in H. apply orb_false_iff in H. destruct H as [H1 H2].
  cbn [series assoc]. rewrite H1. apply IH, H2.
Qed.

(** X8.  Run on a table that has rows but no Name column (Cell 2 skipped),
    Cell 4 raises KeyError at the first row, before any request and before
    anything is saved. *)
Theorem cell4_without_name (svc : service) (df_input : DataFrame)
    (w : world) :
  mem (lit "Name") (columns df_input) = false ->
  rows df_input <> [] ->
  cell4 svc df_input w
  = (Raise KeyError,
     mkWorld (log w ++ [LogStarting (len df_input)]) (calls w) (files w)).
Proof.
  intros HN NE. unfold cell4, len, iterrows.
  destruct (rows df_input) as [|r rest]; [contradiction|].
  cbn [length Nat.eqb map process_rows].
  unfold bind, write_log, process_row, lift, row_getitem.
  cbn [log calls files].
  rewrite (assoc_series_absent _ r _ HN). reflexivity.
Qed.

(** A table with a Formula column only. *)
Lemma cell4_without_name_witness :
  fst (cell4 sample_service (mkFrame [lit "Formula"] [[CStr (lit "H2O")]])
         world0)
  = Raise KeyError.
Proof.
  rewrite (@cell4_without_name sample_service
             (mkFrame [lit "Formula"] [[CStr (lit "H2O")]]) world0).
  - reflexivity.
  - reflexivity.
  - discriminate.
Defined.

(* ===================================================================== *)
(** ** Further properties of the validation and of the whole notebook *)
(* ===================================================================== *)

Lemma cell_eqb_eq (a b : cell) : cell_eqb a b = true <-> a = b.
Proof.
  destruct a, b; cbn; try (split; (reflexivity || discriminate)).
  - rewrite Bool.eqb_true_iff. split; [intros ->; reflexivity | congruence].
  - rewrite Z.eqb_eq. split; [intros ->; reflexivity | congruence].
  - rewrite eqb_eq. split; [intros ->; reflexivity | congruence].
  - rewrite eqb_eq. split; [intros ->; reflexivity | congruence].
Qed.

Lemma cell_mem_In (c : cell) (l : list cell) : cell_mem c l = true <-> In c l.
Proof.
  induction l as [|x l IH]; cbn.
  - split; [discriminate | tauto].
  - rewrite orb_true_iff, IH, cell_eqb_eq. intuition congruence.
Qed.

Lemma duplicated_from_zero (l seen : list cell) :
  duplicated_from seen l = 0 <->
  NoDup l /\ (forall x, In x l -> ~ In x seen).
Proof.
  revert seen. induction l as [|c t IH]; intros seen; cbn [duplicated_from].
  - split; [intros _; split; [constructor | intros x []] | reflexivity].
  - destruct (cell_mem c seen) eqn:M.
    + apply cell_mem_In in M. split; [discriminate|].
      intros [_ H]. exfalso. apply (H c); [now left | exact M].
    + assert (NM : ~ In c seen).
      { intros H. apply cell_mem_In in H. congruence. }
      rewrite IH. split.
      * intros [ND H]. split.
        -- constructor; [|exact ND]. intros Hc. apply (H c Hc). now left.
        -- intros x [<-|Hx]; [exact NM|].
           intros Hs. apply (H x Hx). now right.
      * intros [ND H]. inversion ND as [|? ? Hc ND']; subst. split; [exact ND'|].
        intros x Hx [<-|Hs]; [contradiction|].
        apply (H x); [now right | exact Hs].
Qed.

Lemma cell2_run_valid (df : DataFrame) (w : world) :
  mem (lit "Name") (columns df) = true ->
  cell2 (Csv df) w
  = (Ok df,
     mkWorld
       (log w
        ++ [LogReadOk; LogTotalCompounds (len df); LogColumns (columns df)]
        ++ (if Nat.ltb 0 (duplicated_sum (column df (lit "Name")))
            then [LogDuplicates (duplicated_sum (column df (lit "Name")))]
            else []))
       (calls w) (files w)).
Proof.
  intros HN.
  unfold cell2, bind, try_except, lift, write_log, ret.
  cbn [read_csv log calls files]. rewrite HN. cbn [negb].
  destruct (Nat.ltb 0 (duplicated_sum (column df (lit "Name"))));
    cbn [log calls files]; rewrite <- ?app_assoc; reflexivity.
Qed.

(** X10.  On a readable table with the Name column Cell 2 returns the table as
    read, writes no line of a fatal error and issues no request; it writes
    the duplicate warning exactly when a cell of the Name column repeats an
    earlier one. *)
Theorem cell2_valid_input (df : DataFrame) (w : world) :
  mem (lit "Name") (columns df) = true ->
  let duplicates := duplicated_sum (column df (lit "Name")) in
  cell2 (Csv df) w
  = (Ok df,
     mkWorld
       (log w
        ++ [LogReadOk; LogTotalCompounds (len df); LogColumns (columns df)]
        ++ (if Nat.ltb 0 duplicates then [LogDuplicates duplicates] else []))
       (calls w) (files w))
  /\ (duplicates = 0 <-> NoDup (column df (lit "Name"))).
Proof.
  intros HN duplicates. split.
  - apply cell2_run_valid, HN.
  - unfold duplicates, duplicated_sum. rewrite duplicated_from_zero.
    split; [tauto|]. intros ND. split; [exact ND|]. intros x _ [].
Qed.

(** The sample table has no repeated name. *)
Lemma cell2_valid_input_witness :
  fst (cell2 (Csv sample_frame) world0) = Ok sample_frame.
Proof.
  rewrite (proj1 (@cell2_valid_input sample_frame world0 eq_refl)).
  reflexivity.
Defined.









(* ===================================================================== *)
(** ** The columns of the result rows *)
(* ===================================================================== *)












(* ===================================================================== *)
(** ** Further properties of the quality control *)
(* ===================================================================== *)


(* ===================================================================== *)
(** ** Cell 6 *)
(* ===================================================================== *)



(* ===================================================================== *)
(** ** The retry helper of the troubleshooting guide *)
(* ===================================================================== *)

Lemma retry_loop_spec (svc : service) (url : request) (left : nat)
    (w : world) :
  exists n,
    calls (snd (retry_loop svc url left w)) = calls w ++ repeat url n
    /\ log (snd (retry_loop svc url left w)) = log w
    /\ files (snd (retry_loop svc url left w)) = files w
    /\ n <= left
    /\ match fst (retry_loop svc url left w) with
       | MaxRetriesExceeded => n = left /\ rate_limited svc url w n
       | Returned b =>
           exists k, n = S k /\ rate_limited svc url w k
                     /\ svc (calls w ++ repeat url k) url = Read b
       | Reraised e =>
           exists k, n = S k /\ rate_limited svc url w k
                     /\ svc (calls w ++ repeat url k) url = Raises e
                     /\ e <> HTTPError 429
       end.
Proof.
  revert w. induction left as [|k IH]; intros w.
  - exists 0. cbn [retry_loop fst snd repeat]. rewrite app_nil_r.
    do 4 (split; [reflexivity|]). split; [reflexivity|].
    intros i Hi. lia.
  - cbn [retry_loop]. unfold urlopen.
    set (w1 := mkWorld (log w) (calls w ++ [url]) (files w)).
    assert (Z0 : rate_limited svc url w 0) by (intros i Hi; lia).
    assert (A0 : calls w ++ repeat url 0 = calls w) by apply app_nil_r.
    destruct (svc (calls w) url) as [e|b] eqn:R.
    2:{ exists 1. cbn [fst snd calls log files repeat].
        do 3 (split; [reflexivity|]). split; [lia|].
        exists 0. rewrite A0. auto. }
    assert (Other : e <> HTTPError 429 ->
      exists n,
        calls w1 = calls w ++ repeat url n /\ log w1 = log w
        /\ files w1 = files w /\ n <= S k
        /\ exists k0, n = S k0 /\ rate_limited svc url w k0
                      /\ svc (calls w ++ repeat url k0) url = Raises e
                      /\ e <> HTTPError 429).
    { intros NE. exists 1. cbn [w1 calls log files repeat].
      do 3 (split; [reflexivity|]). split; [lia|].
      exists 0. rewrite A0. auto. }
    destruct e as [|code| | | | | | | |];
      try (apply Other; discriminate).
    destruct (Z.eqb_spec code 429) as [->|NC].
    + destruct (IH w1) as (n & C & L & F & B & M).
      exists (S n). rewrite C, L, F. cbn [w1 calls log files repeat].
      rewrite <- app_assoc.
      do 3 (split; [reflexivity|]). split; [lia|].
      assert (Shift : forall j, rate_limited svc url w1 j ->
                                rate_limited svc url w (S j)).
      { intros j H [|i] Hi.
        - rewrite A0. exact R.
        - specialize (H i ltac:(lia)). cbn [calls w1] in H.
          rewrite <- app_assoc in H. exact H. }
      destruct (fst (retry_loop svc url k w1)) as [b|e|].
      * destruct M as (k0 & -> & RL & Last). exists (S k0).
        cbn [calls w1] in Last. rewrite <- app_assoc in Last. auto.
      * destruct M as (k0 & -> & RL & Last & NE). exists (S k0).
        cbn [calls w1] in Last. rewrite <- app_assoc in Last. auto.
      * destruct M as (-> & RL). auto.
    + apply Other. intros H. injection H as H. contradiction.
Qed.

(** X16.  [make_request_with_backoff] issues the same request again only after
    an answer with HTTP status 429, and at most [max_retries] times in
    all: it returns the first answer read, re-raises the first error that
    is not a 429 (so a transport error or a timeout is not retried), and
    raises its own error after [max_retries] answers with 429, which with
    [max_retries = 0] is at once, without any request. *)
Theorem backoff_retries_on_429_only (svc : service) (url : request)
    (max_retries : nat) (w : world) :
  exists n,
    calls (snd (make_request_with_backoff svc url max_retries w))
      = calls w ++ repeat url n
    /\ n <= max_retries
    /\ match fst (make_request_with_backoff svc url max_retries w) with
       | MaxRetriesExceeded => n = max_retries /\ rate_limited svc url w n
       | Returned b =>
           exists k, n = S k /\ rate_limited svc url w k
                     /\ svc (calls w ++ repeat url k) url = Read b
       | Reraised e =>
           exists k, n = S k /\ rate_limited svc url w k
                     /\ svc (calls w ++ repeat url k) url = Raises e
                     /\ e <> HTTPError 429
       end.
Proof.
  unfold make_request_with_backoff.
  destruct (retry_loop_spec svc url max_retries w) as (n & C & _ & _ & B & M).
  exists n. auto.
Qed.

(* ===================================================================== *)
(** ** The encoding fix of the troubleshooting guide *)
(* ===================================================================== *)

Lemma startswith_firstn (p s : str) :
  startswith s p = true -> firstn (length p) s = p.
Proof.
  revert s. induction p as [|x p IH]; intros s H; [reflexivity|].
  destruct s as [|y s]; [discriminate H|].
  cbn [startswith] in H. apply andb_true_iff in H. destruct H as [E H].
  apply N.eqb_eq in E. subst y. cbn [length firstn]. f_equal. apply IH, H.
Qed.

(** A replacement between texts without printable ASCII character is not
    seen once the other characters are removed. *)
Lemma filter_replace_from (o : char) (old' new : str) :
  forallb (fun c => negb (printable c)) (o :: old') = true ->
  forallb (fun c => negb (printable c)) new = true ->
  forall s skip,
    forallb (fun c => negb (printable c)) (firstn skip s) = true ->
    filter printable (replace_from (o :: old') new skip s)
    = filter printable s.
Proof.
  intros Hold Hnew.
  assert (Fnew : filter printable new = []).
  { clear Hold. induction new as [|c new IH]; [reflexivity|].
    cbn [forallb] in Hnew. apply andb_true_iff in Hnew.
    destruct Hnew as [Hc Hn]. cbn [filter].
    apply negb_true_iff in Hc. rewrite Hc. apply IH, Hn. }
  cbn [forallb] in Hold. apply andb_true_iff in Hold.
  destruct Hold as [Ho Hold']. apply negb_true_iff in Ho.
  induction s as [|c t IH]; intros skip H; [reflexivity|].
  cbn [replace_from]. destruct skip as [|k].
  - destruct (startswith (c :: t) (o :: old')) eqn:S.
    + rewrite filter_app, Fnew. cbn [app length Nat.sub].
      rewrite Nat.sub_0_r.
      cbn [startswith] in S. apply andb_true_iff in S. destruct S as [E S].
      apply N.eqb_eq in E. subst c.
      cbn [filter]. rewrite Ho. apply IH.
      rewrite (startswith_firstn _ _ S). exact Hold'.
    + cbn [filter]. rewrite (IH 0); reflexivity.
  - cbn [firstn forallb] in H. apply andb_true_iff in H.
    destruct H as [Hc Ht]. apply negb_true_iff in Hc.
    cbn [filter]. rewrite Hc. apply IH, Ht.
Qed.

(** X17.  The encoding fix leaves of a text exactly its printable ASCII
    characters, in order: the Greek letters its three replacements put in
    are removed again by its last step, so no Greek letter is ever left. *)
Theorem fix_encoding_keeps_printable_only (s : str) :
  fix_encoding_text s = filter printable s
  /\ forallb (fun c => negb (is_greek c)) (fix_encoding_text s) = true.
Proof.
  assert (E : fix_encoding_text s = filter printable s).
  { unfold fix_encoding_text, replace_str.
    rewrite !filter_replace_from; reflexivity. }
  split; [exact E|]. rewrite E.
  apply forallb_forall. intros c H. apply filter_In in H.
  destruct H as [_ P]. unfold printable in P.
  apply andb_true_iff in P. destruct P as [_ P].
  apply N.leb_le in P. unfold is_greek, alpha, beta, gamma.
  destruct (N.eqb_spec c 945) as [->|_]; [lia|].
  destruct (N.eqb_spec c 946) as [->|_]; [lia|].
  destruct (N.eqb_spec c 947) as [->|_]; [lia|]. reflexivity.
Qed.

(* ===================================================================== *)
(** ** The SMILES check of the troubleshooting guide *)
(* ===================================================================== *)

Lemma contains_single (c : char) (s : str) :
  contains [c] s = true <-> In c s.
Proof.
  induction s as [|y s IH]; cbn [contains startswith In].
  - split; [discriminate | tauto].
  - assert (E : startswith s [] = true) by (destruct s; reflexivity).
    rewrite E, orb_true_iff, IH, andb_true_r, N.eqb_eq.
    split; (intros [H|H]; [left; congruence | now right]).
Qed.

Lemma first_invalid_none (chars : list char) (s : str) :
  first_invalid chars s = None <-> (forall c, In c chars -> ~ In c s).
Proof.
  induction chars as [|ch rest IH]; cbn [first_invalid].
  - split; [intros _ c [] | reflexivity].
  - destruct (contains [ch] s) eqn:C.
    + apply contains_single in C. split; [discriminate|].
      intros H. exfalso. apply (H ch); [now left | exact C].
    + rewrite IH. split.
      * intros H c [<-|Hc]; [|apply H, Hc].
        intros Hs. apply contains_single in Hs. congruence.
      * intros H c Hc. apply H. now right.
Qed.

Lemma blank_test (s : str) :
  (match s with [] => true | _ => false end)
  || Nat.eqb (length (strip s)) 0
  = whitespace_only (VStr s).
Proof.
  cbn [whitespace_only]. pose proof (strip_nil s) as H.
  destruct s as [|c t]; [reflexivity|]. cbn [orb].
  destruct (strip (c :: t)) as [|x r];
    destruct (forallb isspace (c :: t)); try reflexivity.
  - destruct H as [H _]. discriminate (H eq_refl).
  - destruct H as [_ H]. discriminate (H eq_refl).
Qed.

(** X18.  [validate_smiles] says "Empty SMILES" of exactly the texts that are
    empty or made of whitespace, the ones Cell 5 removes; it accepts a text
    exactly when the text is not such, holds none of the six characters it
    rejects and holds a letter; so whatever it accepts passes the Smiles
    checks of the quality control. *)
Theorem validate_smiles_verdicts (isalpha : char -> bool) (smiles : str) :
  (snd (validate_smiles isalpha smiles) = lit "Empty SMILES"
   <-> whitespace_only (VStr smiles) = true)
  /\ (fst (validate_smiles isalpha smiles) = true
      <-> whitespace_only (VStr smiles) = false
          /\ (forall c, In c invalid_chars -> ~ In c smiles)
          /\ (exists c, In c smiles /\ isalpha c = true))
  /\ (fst (validate_smiles isalpha smiles) = true ->
      negb (isna (VStr smiles)) && ne_empty (str_strip (VStr smiles)) = true).
Proof.
  assert (Main :
    (snd (validate_smiles isalpha smiles) = lit "Empty SMILES"
     <-> whitespace_only (VStr smiles) = true)
    /\ (fst (validate_smiles isalpha smiles) = true
        <-> whitespace_only (VStr smiles) = false
            /\ (forall c, In c invalid_chars -> ~ In c smiles)
            /\ (exists c, In c smiles /\ isalpha c = true))).
  { unfold validate_smiles. rewrite blank_test.
    destruct (whitespace_only (VStr smiles)) eqn:W.
    { split; [tauto|]. cbn [fst]. split; [discriminate|].
      intros [H _]. discriminate H. }
    destruct (first_invalid invalid_chars smiles) as [ch|] eqn:FI.
    { split.
      - cbn [snd]. split; [|discriminate]. intros H. cbv in H. discriminate H.
      - cbn [fst]. split; [discriminate|]. intros (_ & H & _).
        apply first_invalid_none in H. congruence. }
    pose proof (proj1 (first_invalid_none invalid_chars smiles) FI) as NI.
    destruct (existsb isalpha smiles) eqn:A; cbn [negb fst snd].
    - split.
      + split; [|discriminate]. intros H. cbv in H. discriminate H.
      + split; [|reflexivity]. intros _. split; [reflexivity|].
        split; [exact NI|]. apply existsb_exists in A. exact A.
    - split.
      + split; [|discriminate]. intros H. cbv in H. discriminate H.
      + split; [discriminate|]. intros (_ & _ & H).
        apply existsb_exists in H. congruence. }
  destruct Main as [M1 M2]. split; [exact M1|]. split; [exact M2|].
  intros V. apply M2 in V. destruct V as [W _].
  rewrite smiles_checks. cbn [isna negb andb]. rewrite W. reflexivity.
Qed.

(** Aspirin's SMILES is accepted, under the letters of ASCII. *)
Lemma validate_smiles_verdicts_witness :
  negb (isna (VStr aspirin_smiles))
  && ne_empty (str_strip (VStr aspirin_smiles)) = true.
Proof.
  apply (proj2 (proj2 (validate_smiles_verdicts ascii_isalpha aspirin_smiles))).
  reflexivity.
Defined.

(* ===================================================================== *)
(** ** What the resolver writes to the log *)
(* ===================================================================== *)

Lemma searched_app (a b : list event) :
  searched (a ++ b) = searched a ++ searched b.
Proof.
  induction a as [|ev a IH]; [reflexivity|].
  destruct ev; cbn [app searched]; rewrite IH; reflexivity.
Qed.

Section ResolverLog.

Variable svc : service.

Ltac close_log :=
  cbn [fst snd log calls files];
  rewrite <- ?app_assoc; cbn [app];
  eexists; split; [reflexivity|]; repeat split.

(** One pass through the loop body announces its candidate, and closes
    with the line of success exactly when it returns. *)
Lemma attempt_log (i : nat) (n : str) (w : world) :
  exists lg,
    log (snd (attempt svc i n w)) = log w ++ LogSearching n :: lg
    /\ searched lg = []
    /\ forallb is_processing lg = true
    /\ match fst (attempt svc i n w) with
       | Ok (Return r) => lg = [LogFoundCid (fst (fst r)); LogSuccess (fst (fst r))]
       | _ => existsb is_verdict lg = false
       end.
Proof.
  unfold attempt, bind, try_except, urlopen, write_log, lift, ret.
  cbn [log calls files].
  destruct (svc (calls w) (CidsByName n)) as [e|b1]; [close_log|].
  destruct (nonempty b1); cbn [negb]; [|close_log].
  destruct (first_cid b1) as [c|e]; [|close_log].
  cbn [log calls files].
  destruct (svc (calls w ++ [CidsByName n]) (SmilesByCid c)) as [e|b2];
    [close_log|].
  destruct (nonempty b2); [|close_log].
  destruct (smiles_of b2) as [s|e]; close_log.
Qed.

Lemma attempts_log (names : list str) (i : nat) (w : world) :
  exists lg,
    log (snd (attempts svc i names w)) = log w ++ lg
    /\ names_queried (calls (snd (attempts svc i names w)))
       = names_queried (calls w) ++ searched lg
    /\ forallb is_processing lg = true
    /\ match fst (attempts svc i names w) with
       | Ok (Return r) =>
           exists pre,
             lg = pre ++ [LogFoundCid (fst (fst r)); LogSuccess (fst (fst r))]
             /\ existsb is_verdict pre = false
       | _ => existsb is_verdict lg = false
       end.
Proof.
  revert i w. induction names as [|n rest IH]; intros i w.
  - exists []. cbn. rewrite !app_nil_r. auto.
  - cbn [attempts]. unfold bind.
    destruct (attempt_log i n w) as (lg1 & G1 & S1 & P1 & V1).
    pose proof (attempt_cases svc i n w) as AC.
    destruct (attempt svc i n w) as [[[|r]|e] w1]; cbn [fst snd] in *.
    + destruct AC as [(w1' & E & Q & _) | (r & w1' & E & _)];
        [|discriminate E].
      injection E as <-.
      destruct (IH (S i) w1) as (lg2 & G2 & Q2 & P2 & V2).
      exists (LogSearching n :: lg1 ++ lg2).
      rewrite G2, Q2, G1, Q, <- !app_assoc. cbn [app searched].
      rewrite searched_app, S1. cbn [app].
      split; [reflexivity|]. split; [reflexivity|].
      split; [cbn [forallb is_processing]; rewrite forallb_app, P1, P2;
              reflexivity|].
      destruct (fst (attempts svc (S i) rest w1)) as [[|r]|e].
      * cbn [existsb is_verdict]. rewrite existsb_app, V1, V2. reflexivity.
      * destruct V2 as (pre & -> & V2).
        exists (LogSearching n :: lg1 ++ pre).
        split; [cbn [app]; rewrite <- app_assoc; reflexivity|].
        cbn [existsb is_verdict]. rewrite existsb_app, V1, V2. reflexivity.
      * cbn [existsb is_verdict]. rewrite existsb_app, V1, V2. reflexivity.
    + destruct AC as [(w1' & E & _) | (r' & w1' & E & _ & _ & Q & _)];
        [discriminate E|].
      injection E as <- <-.
      exists (LogSearching n :: lg1). cbn [ret fst snd].
      rewrite G1, Q. cbn [searched]. rewrite S1.
      split; [reflexivity|]. split; [reflexivity|].
      split; [cbn [forallb is_processing]; exact P1|].
      exists [LogSearching n]. rewrite V1. auto.
    + destruct AC as [(w1' & E & _) | (r' & w1' & E & _)]; discriminate E.
Qed.

(** The resolver's lines: every request by name is announced by a
    Searching line, in order, and the run closes with one verdict. *)
Lemma get_cid_and_smiles_log (name : str) (w : world) :
  exists r pre verdict,
    fst (get_cid_and_smiles svc name w) = Ok r
    /\ log (snd (get_cid_and_smiles svc name w)) = log w ++ pre ++ [verdict]
    /\ names_queried (calls (snd (get_cid_and_smiles svc name w)))
       = names_queried (calls w) ++ searched pre
    /\ forallb is_processing (pre ++ [verdict]) = true
    /\ existsb is_verdict pre = false
    /\ verdict = (if PyStr.eqb (snd r) status_failed
                  then LogAllFailed (strip name)
                  else LogSuccess (fst (fst r))).
Proof.
  unfold get_cid_and_smiles, bind.
  destruct (attempts_log (names_to_try name) 0 w) as (lg & G & Q & P & V).
  pose proof (attempts_cases svc (names_to_try name) 0 w) as AC.
  destruct (attempts svc 0 (names_to_try name) w) as [[[|r]|e] w1];
    cbn [fst snd] in *.
  - unfold write_log, ret. cbn [fst snd log calls files].
    exists failed_resolution, lg, (LogAllFailed (strip name)).
    rewrite G, Q, <- app_assoc, forallb_app, P.
    repeat split; auto.
  - destruct V as (pre & -> & V).
    destruct AC as [(w1' & E & _) | (r' & w1' & k & E & D & _)];
      [discriminate E|].
    injection E as <- <-.
    pose proof (success_not_failed (delivered_success D)) as NF.
    apply eqb_neq in NF.
    exists r, (pre ++ [LogFoundCid (fst (fst r))]), (LogSuccess (fst (fst r))).
    cbn [ret fst snd]. rewrite G, Q, NF.
    split; [reflexivity|].
    split; [rewrite <- !app_assoc; reflexivity|].
    split; [rewrite !searched_app; cbn [searched]; reflexivity|].
    split; [rewrite <- app_assoc; exact P|].
    split; [rewrite existsb_app, V; reflexivity | reflexivity].
  - destruct AC as [(w1' & E & _) | (r' & w1' & k & E & _)]; discriminate E.
Qed.

End ResolverLog.


(* ===================================================================== *)
(** ** The rates the notebook writes *)
(* ===================================================================== *)

Lemma wr_ret (A : Type) (a : A) (Q : A -> Prop) :
  Q a -> writes_defined_rates (ret a) Q.
Proof.
  intros H w. exists []. cbn. rewrite app_nil_r. auto.
Qed.

Lemma wr_lift (A : Type) (r : exc A) :
  writes_defined_rates (lift r) (fun _ => True).
Proof.
  intros w. exists []. cbn. rewrite app_nil_r. destruct r; auto.
Qed.

Lemma wr_write_log (ev : event) :
  rate_defined ev = true ->
  writes_defined_rates (write_log ev) (fun _ => True).
Proof.
  intros H w. exists [ev]. cbn. rewrite H. auto.
Qed.

Lemma wr_to_csv (a : artifact) (t : list dict) :
  writes_defined_rates (to_csv a t) (fun _ => True).
Proof.
  intros w. exists []. cbn. rewrite app_nil_r. auto.
Qed.

Lemma wr_bind (A B : Type) (m : M A) (k : A -> M B) (Q : A -> Prop)
    (R : B -> Prop) :
  writes_defined_rates m Q ->
  (forall a, Q a -> writes_defined_rates (k a) R) ->
  writes_defined_rates (bind m k) R.
Proof.
  intros Hm Hk w. unfold bind.
  destruct (Hm w) as (l1 & G1 & P1 & Q1).
  destruct (m w) as [[a|e] w1]; cbn [fst snd] in *.
  - destruct (Hk a Q1 w1) as (l2 & G2 & P2 & R2).
    exists (l1 ++ l2). rewrite G2, G1, <- app_assoc, forallb_app, P1, P2. auto.
  - exists l1. auto.
Qed.

Lemma wr_try (A : Type) (m : M A) (h : exn -> M A) (Q : A -> Prop) :
  writes_defined_rates m Q ->
  (forall e, writes_defined_rates (h e) Q) ->
  writes_defined_rates (try_except m h) Q.
Proof.
  intros Hm Hh w. unfold try_except.
  destruct (Hm w) as (l1 & G1 & P1 & Q1).
  destruct (m w) as [[a|e] w1]; cbn [fst snd] in *.
  - exists l1. auto.
  - destruct (Hh e w1) as (l2 & G2 & P2 & R2).
    exists (l1 ++ l2). rewrite G2, G1, <- app_assoc, forallb_app, P1, P2. auto.
Qed.

Lemma wr_weaken (A : Type) (m : M A) (Q R : A -> Prop) :
  writes_defined_rates m Q -> (forall a, Q a -> R a) ->
  writes_defined_rates m R.
Proof.
  intros Hm H w. destruct (Hm w) as (l & G & P & Q1).
  exists l. split; [exact G|]. split; [exact P|].
  destruct (fst (m w)); auto.
Qed.

Lemma is_processing_rate_defined (l : list event) :
  forallb is_processing l = true -> forallb rate_defined l = true.
Proof.
  induction l as [|ev l IH]; [auto|].
  cbn [forallb]. intros H. apply andb_true_iff in H. destruct H as [H1 H2].
  rewrite (IH H2), andb_true_r. destruct ev; try discriminate H1; reflexivity.
Qed.

(** A step whose value carries no information. *)
Ltac wr_then := eapply (@wr_bind _ _ _ _ (fun _ => True)).

Lemma wr_get_cid_and_smiles (svc : service) (name : str) :
  writes_defined_rates (get_cid_and_smiles svc name) (fun _ => True).
Proof.
  intros w.
  destruct (get_cid_and_smiles_log svc name w)
    as (r & pre & verdict & E & G & _ & P & _).
  exists (pre ++ [verdict]). split; [exact G|].
  split; [apply is_processing_rate_defined, P|].
  destruct (fst (get_cid_and_smiles svc name w)); auto.
Qed.

Lemma wr_process_rows (svc : service) (df_input : DataFrame)
    (rs : list Series) (acc : batch) (index : nat) :
  writes_defined_rates (process_rows svc df_input acc index rs)
    (fun _ => True).
Proof.
  revert acc index. induction rs as [|row rest IH]; intros acc index.
  - apply wr_ret. exact I.
  - cbn [process_rows].
    wr_then; [|intros acc' _; apply IH].
    unfold process_row.
    wr_then; [apply wr_lift|]. intros name_cell _.
    wr_then; [apply wr_write_log; reflexivity|]. intros _ _.
    wr_then; [apply wr_get_cid_and_smiles|]. intros r _.
    wr_then; [apply wr_lift|]. intros result_row _.
    wr_then; [apply wr_ret; exact I|]. intros _ _.
    apply wr_ret. exact I.
Qed.

Lemma wr_log_failed_names (l : list str) :
  writes_defined_rates (log_failed_names l) (fun _ => True).
Proof.
  induction l as [|n l IH]; [apply wr_ret; exact I|].
  cbn [log_failed_names].
  wr_then; [apply wr_write_log; reflexivity|]. intros _ _. exact IH.
Qed.

(** Cell 4 gives its rate over the rows of a table that has some, and
    binds results only then. *)
Lemma wr_cell4 (svc : service) (df_input : DataFrame) :
  writes_defined_rates (cell4 svc df_input)
    (fun b => b <> None -> 0 < len df_input).
Proof.
  unfold cell4. destruct (Nat.eqb_spec (len df_input) 0) as [Z|NZ].
  - wr_then; [apply wr_write_log; reflexivity|]. intros _ _.
    apply wr_ret. intros H. contradiction.
  - assert (Pos : 0 < len df_input) by lia.
    assert (Lt : Nat.ltb 0 (len df_input) = true) by (apply Nat.ltb_lt, Pos).
    wr_then; [apply wr_write_log; reflexivity|]. intros _ _.
    wr_then; [apply wr_process_rows|]. intros b _.
    wr_then; [apply wr_to_csv|]. intros _ _.
    do 5 (wr_then; [apply wr_write_log; reflexivity|]; intros _ _).
    wr_then; [apply wr_write_log; exact Lt|]. intros _ _.
    wr_then.
    { destruct (failed_compounds b) as [|n l]; [apply wr_ret; exact I|].
      wr_then; [apply wr_write_log; reflexivity|]. intros _ _.
      apply wr_log_failed_names. }
    intros _ _.
    do 2 (wr_then; [apply wr_write_log; reflexivity|]; intros _ _).
    apply wr_ret. intros _. exact Pos.
Qed.

Lemma wr_cell5 (df_input : DataFrame) (b : option batch) :
  (b <> None -> 0 < len df_input) ->
  writes_defined_rates (cell5 df_input b) (fun _ => True).
Proof.
  intros H. unfold cell5. destruct b as [b|].
  - assert (Lt : Nat.ltb 0 (len df_input) = true)
      by (apply Nat.ltb_lt, H; discriminate).
    destruct (Nat.ltb 0 (length (results b))).
    + do 5 (wr_then; [apply wr_write_log; reflexivity|]; intros _ _).
      wr_then; [apply wr_to_csv|]. intros _ _.
      do 6 (wr_then; [apply wr_write_log; reflexivity|]; intros _ _).
      wr_then; [apply wr_write_log; exact Lt|]. intros _ _.
      apply wr_ret. exact I.
    + wr_then; [apply wr_write_log; reflexivity|]. intros _ _.
      apply wr_ret. exact I.
  - wr_then; [apply wr_write_log; reflexivity|]. intros _ _.
    apply wr_ret. exact I.
Qed.

Lemma wr_cell2 (f : file) :
  writes_defined_rates (cell2 f) (fun _ => True).
Proof.
  unfold cell2. apply wr_try.
  - wr_then; [apply wr_lift|]. intros df _.
    do 3 (wr_then; [apply wr_write_log; reflexivity|]; intros _ _).
    wr_then.
    { destruct (negb (mem (lit "Name") (columns df)));
        [apply wr_lift | apply wr_ret; exact I]. }
    intros _ _.
    wr_then.
    { destruct (Nat.ltb 0 _);
        [apply wr_write_log; reflexivity | apply wr_ret; exact I]. }
    intros _ _. apply wr_ret. exact I.
  - intros e.
    destruct e;
      (wr_then; [apply wr_write_log; reflexivity|]; intros _ _;
       apply wr_ret; exact I).
Qed.

(** X13.  Every rate the notebook writes is taken over a total that is not
    zero, whatever the file and the service: the success rate of Cell 4 and
    the overall rate of Cell 5 divide by the number of input rows only when
    there are some.  The notebook only appends to the log. *)
Theorem notebook_rates_defined (svc : service) (f : file) (w : world) :
  exists lg,
    log (snd (notebook svc f w)) = log w ++ lg
    /\ forallb rate_defined lg = true.
Proof.
  assert (H : writes_defined_rates (notebook svc f) (fun _ => True)).
  { unfold notebook.
    wr_then.
    { unfold cell1.
      wr_then; [apply wr_write_log; reflexivity|]. intros _ _.
      apply wr_write_log. reflexivity. }
    intros _ _.
    wr_then; [apply wr_cell2|]. intros df _.
    eapply wr_bind; [apply wr_cell4|]. intros b Hb.
    wr_then; [apply wr_cell5, Hb|]. intros c _.
    apply wr_ret. exact I. }
  destruct (H w) as (lg & G & P & _). exists lg. auto.
Qed.

(** The replacement of a two-character pattern, and the encoding fix on the
    name of the usage guide as it reads when mis-decoded. *)
Lemma replace_str_example :
  replace_str (lit "ab") (lit "X") (lit "aabab") = lit "aXX"
  /\ fix_encoding_text (lit "L-" ++ [226%N] ++ lit "-PALMITIN")
     = lit "L--PALMITIN".
Proof. split; reflexivity. Qed.

(* ===================================================================== *)
(** ** The name cleaning of the troubleshooting guide *)
(* ===================================================================== *)

Lemma lstrip_length (s : str) : length (lstrip s) <= length s.
Proof.
  induction s as [|c s IH]; [reflexivity|].
  cbn [lstrip]. destruct (isspace c); cbn [length]; lia.
Qed.

Lemma lstrip_fixed (s : str) :
  lstrip s = s <-> match s with [] => True | c :: _ => isspace c = false end.
Proof.
  destruct s as [|c t]; [cbn; tauto|].
  cbn [lstrip]. destruct (isspace c) eqn:E.
  - split; [|discriminate]. intros H.
    pose proof (lstrip_length t) as L. rewrite H in L. cbn in L. lia.
  - tauto.
Qed.

Lemma lstrip_idempotent (s : str) : lstrip (lstrip s) = lstrip s.
Proof.
  apply lstrip_fixed. destruct (lstrip s) as [|c t] eqn:E; [exact I|].
  exact (lstrip_head _ E).
Qed.

Lemma lstrip_snoc (a : str) (c : char) :
  isspace c = false -> lstrip (a ++ [c]) = lstrip a ++ [c].
Proof.
  intros H. induction a as [|x a IH]; cbn [app lstrip].
  - rewrite H. reflexivity.
  - destruct (isspace x); [exact IH | reflexivity].
Qed.

Lemma rstrip_fixed (s : str) :
  rstrip s = s <->
  match rev s with [] => True | c :: _ => isspace c = false end.
Proof.
  unfold rstrip. rewrite <- lstrip_fixed. split.
  - intros H. rewrite <- H at 2. rewrite rev_involutive. reflexivity.
  - intros H. rewrite H. apply rev_involutive.
Qed.

(** A trimmed text has whitespace at neither end. *)
Lemma strip_stripped (s : str) :
  lstrip (strip s) = strip s /\ rstrip (strip s) = strip s.
Proof.
  unfold strip. split.
  - destruct (lstrip s) as [|c t] eqn:E; [reflexivity|].
    pose proof (lstrip_head _ E) as Hc.
    unfold rstrip. cbn [rev]. rewrite (@lstrip_snoc (rev t) c Hc), rev_app_distr.
    cbn [rev app]. apply lstrip_fixed. exact Hc.
  - unfold rstrip. rewrite rev_involutive, lstrip_idempotent. reflexivity.
Qed.

Lemma collapse_spaces_idempotent (s : str) (b : bool) :
  collapse_spaces b (collapse_spaces b s) = collapse_spaces b s.
Proof.
  revert b. induction s as [|c t IH]; intros b; [reflexivity|].
  cbn [collapse_spaces]. destruct (isspace c) eqn:E.
  - destruct b; [apply IH|].
    cbn [collapse_spaces]. change (isspace 32%N) with true. cbn iota.
    f_equal. apply IH.
  - cbn [collapse_spaces]. rewrite E. f_equal. apply IH.
Qed.

Lemma collapse_spaces_snoc (t : str) (c : char) (b : bool) :
  isspace c = false ->
  collapse_spaces b (t ++ [c]) = collapse_spaces b t ++ [c].
Proof.
  intros H. revert b. induction t as [|x t IH]; intros b; cbn [app collapse_spaces].
  - rewrite H. reflexivity.
  - destruct (isspace x); [destruct b|]; rewrite IH; reflexivity.
Qed.

(** Collapsing leaves a trimmed text trimmed. *)
Lemma strip_collapse_spaces (s : str) :
  lstrip s = s -> rstrip s = s ->
  strip (collapse_spaces false s) = collapse_spaces false s.
Proof.
  intros L R. unfold strip.
  assert (L' : lstrip (collapse_spaces false s) = collapse_spaces false s).
  { apply lstrip_fixed. apply lstrip_fixed in L.
    destruct s as [|c t]; [exact I|]. cbn [collapse_spaces]. rewrite L. exact L. }
  rewrite L'. apply rstrip_fixed. apply rstrip_fixed in R.
  destruct (rev s) as [|c t] eqn:E.
  - apply (proj1 (rev_nil s)) in E. subst s. exact I.
  - assert (S : s = rev t ++ [c]).
    { rewrite <- (rev_involutive s), E. reflexivity. }
    rewrite S, (@collapse_spaces_snoc (rev t) c false R), rev_app_distr.
    exact R.
Qed.

Lemma collapse_spaces_single (s : str) (b : bool) :
  single_spaced b (collapse_spaces b s) = true.
Proof.
  revert b. induction s as [|c t IH]; intros b; [reflexivity|].
  cbn [collapse_spaces]. destruct (isspace c) eqn:E.
  - destruct b; [apply IH|].
    cbn [single_spaced]. change (isspace 32%N) with true. cbn iota.
    rewrite IH. reflexivity.
  - cbn [single_spaced]. rewrite E. apply IH.
Qed.

Lemma isspace_to_hyphen (c : char) : isspace (to_hyphen c) = isspace c.
Proof.
  unfold to_hyphen.
  destruct (N.eqb_spec c 8722%N) as [->|_]; [reflexivity|].
  destruct (N.eqb_spec c 8211%N) as [->|_]; reflexivity.
Qed.

Lemma to_hyphen_space (c : char) :
  isspace c = true -> to_hyphen c = c.
Proof.
  unfold to_hyphen.
  destruct (N.eqb_spec c 8722%N) as [->|_]; [discriminate|].
  destruct (N.eqb_spec c 8211%N) as [->|_]; [discriminate | reflexivity].
Qed.

Lemma to_hyphen_idempotent (c : char) : to_hyphen (to_hyphen c) = to_hyphen c.
Proof.
  unfold to_hyphen.
  destruct (N.eqb_spec c 8722%N) as [->|H1]; [reflexivity|].
  destruct (N.eqb_spec c 8211%N) as [->|H2]; [reflexivity|].
  apply N.eqb_neq in H1, H2. rewrite H1, H2. reflexivity.
Qed.

Lemma replace_hyphens (s : str) :
  replace 8211%N (lit "-") (replace 8722%N (lit "-") s) = map to_hyphen s.
Proof.
  induction s as [|c t IH]; [reflexivity|].
  change (c :: t) with ([c] ++ t).
  rewrite !replace_app, IH, map_app. f_equal.
  unfold replace, to_hyphen. cbn [flat_map map app].
  destruct (N.eqb c 8722%N); cbn [flat_map app lit list_ascii_of_string map
                                N_of_ascii];
    [reflexivity|].
  destruct (N.eqb c 8211%N); reflexivity.
Qed.

Lemma lstrip_map_hyphen (s : str) :
  lstrip (map to_hyphen s) = map to_hyphen (lstrip s).
Proof.
  induction s as [|c t IH]; [reflexivity|].
  cbn [map lstrip]. rewrite isspace_to_hyphen.
  destruct (isspace c); [exact IH | reflexivity].
Qed.

Lemma strip_map_hyphen (s : str) :
  strip (map to_hyphen s) = map to_hyphen (strip s).
Proof.
  unfold strip, rstrip.
  rewrite lstrip_map_hyphen, <- map_rev, lstrip_map_hyphen, map_rev.
  reflexivity.
Qed.

Lemma collapse_map_hyphen (s : str) (b : bool) :
  collapse_spaces b (map to_hyphen s) = map to_hyphen (collapse_spaces b s).
Proof.
  revert b. induction s as [|c t IH]; intros b; [reflexivity|].
  cbn [map collapse_spaces]. rewrite isspace_to_hyphen.
  destruct (isspace c); [destruct b|]; cbn [map]; rewrite IH; reflexivity.
Qed.

Lemma single_spaced_map_hyphen (s : str) (b : bool) :
  single_spaced b (map to_hyphen s) = single_spaced b s.
Proof.
  revert b. induction s as [|c t IH]; intros b; [reflexivity|].
  cbn [map single_spaced]. rewrite isspace_to_hyphen.
  destruct (isspace c) eqn:E; [|apply IH].
  rewrite (@to_hyphen_space c E), IH. reflexivity.
Qed.

Lemma clean_compound_name_unfold (name : str) :
  clean_compound_name name
  = map to_hyphen (collapse_spaces false (strip name)).
Proof. unfold clean_compound_name. apply replace_hyphens. Qed.

(** X19.  The name cleaning gives a normal form: its result has whitespace at
    neither end and only single spaces inside, holds neither minus sign nor
    en dash, and is left as it is by a second cleaning. *)
Theorem clean_compound_name_normal (name : str) :
  let cleaned := clean_compound_name name in
  strip cleaned = cleaned
  /\ single_spaced false cleaned = true
  /\ ~ In 8722%N cleaned
  /\ ~ In 8211%N cleaned
  /\ clean_compound_name cleaned = cleaned.
Proof.
  intros cleaned. unfold cleaned. rewrite !clean_compound_name_unfold.
  destruct (strip_stripped name) as [L R].
  pose proof (@strip_collapse_spaces (strip name) L R) as SC.
  assert (S : strip (map to_hyphen (collapse_spaces false (strip name)))
              = map to_hyphen (collapse_spaces false (strip name))).
  { rewrite strip_map_hyphen, SC. reflexivity. }
  assert (No : forall d, (d = 8722 \/ d = 8211)%N ->
             ~ In d (map to_hyphen (collapse_spaces false (strip name)))).
  { intros d Hd H. apply in_map_iff in H. destruct H as (x & Hx & _).
    unfold to_hyphen in Hx. cbv zeta in Hx.
    destruct (N.eqb x 8722%N) eqn:E1.
    - cbn in Hx. destruct Hd; subst d; discriminate.
    - destruct (N.eqb x 8211%N) eqn:E2.
      + destruct Hd; subst d; discriminate.
      + apply N.eqb_neq in E1, E2. subst d. destruct Hd; contradiction. }
  split; [exact S|]. split.
  { rewrite single_spaced_map_hyphen. apply collapse_spaces_single. }
  split; [apply No; now left|]. split; [apply No; now right|].
  rewrite S, collapse_map_hyphen, collapse_spaces_idempotent, map_map.
  apply map_ext. intros c. apply to_hyphen_idempotent.
Qed.
